(** * Mirage catalog tools: [mirage/catalogs/create_catalog.py]

    A shallow embedding of the catalog-building functions
    [get_2MASS_ptsrc_catalog], [besancon], [filter_bad_ra_dec] and
    [generate_ra_dec], with the properties stated about them.

    Conventions of the embedding.
    - A Python float (numpy float64) is modelled by the exact rational
      it denotes ([Q], compared with [==] and [<=]); rounding is outside
      the model.  Where the range of float64 decides a property
      ([generate_ra_dec] on plain floats), [float64] adds the infinities,
      the not-a-number and overflow.
    - The two remote services, astropy's coordinate transform and numpy's
      random source are not code of this module.  They are parameters:
      the services and the transform are the fields of [services], the
      random source is a sequence of draws stored in the [world].
    - Python statements with effects (the assignment to [Irsa.ROW_LIMIT],
      network requests, random draws, raised exceptions) are written in
      the state-and-exception monad [M] over [world]. *)

From stdpp Require Import gmap strings list.
From Stdlib Require Import QArith Qabs Lqa.

(** Rationals are written with their scope key. *)
Close Scope Q_scope.

Set Default Proof Using "Type".

(** ** Exceptions *)

Inductive exn : Type :=
| UnboundLocalError (name : string)
| ValueError (msg : string)
| UnitConversionError (msg : string)
| RemoteServiceError (msg : string).

(** Python's invalid-argument error is [ValueError]. *)
Definition is_invalid_argument_error (e : exn) : bool :=
  match e with
  | ValueError _ => true
  | _ => false
  end.

(** ** astropy.units: the angular units the module uses *)

Module Units.

(** A unit is a product of powers of [deg] and [arcsec]. *)
Record unit_t : Type := Unit { deg_pow : nat; arcsec_pow : nat }.

#[global] Instance unit_eq_dec : EqDecision unit_t.
Proof. solve_decision. Defined.

Definition dimensionless : unit_t := Unit 0 0.
Definition deg : unit_t := Unit 1 0.
Definition arcsec : unit_t := Unit 0 1.

Definition unit_mul (u v : unit_t) : unit_t :=
  Unit (deg_pow u + deg_pow v) (arcsec_pow u + arcsec_pow v).

(** Angular dimension: units convert into each other exactly when
    their dimensions agree. *)
Definition dimension (u : unit_t) : nat := deg_pow u + arcsec_pow u.

(** One [arcsec] is [1/3600 deg]; [scale u] is the size of [u] in
    [deg ^ dimension u]. *)
Definition scale (u : unit_t) : Q := ((1 # 3600) ^ Z.of_nat (arcsec_pow u))%Q.

Definition convert (v : Q) (from to : unit_t) : exn + Q :=
  if decide (from = to) then inr v
  else if Nat.eqb (dimension from) (dimension to)
       then inr (v * (scale from / scale to))%Q
       else inl (UnitConversionError "units are not convertible").

(** A scalar [Quantity]: [x * u.deg] is [Qty x deg]. *)
Record Quantity : Type := Qty { value : Q; unit : unit_t }.

(** A [Quantity] holding an array: one unit for all entries. *)
Record QuantityArray : Type := QtyArr { values : list Q; arr_unit : unit_t }.

(** [q.to(u)] *)
Definition to (q : Quantity) (u : unit_t) : exn + Quantity :=
  match convert (value q) (unit q) u with
  | inl e => inl e
  | inr v => inr (Qty v u)
  end.

(** [q1 * q2] *)
Definition qmul (q1 q2 : Quantity) : Quantity :=
  Qty (value q1 * value q2)%Q (unit_mul (unit q1) (unit q2)).

(** [q * k] for a plain number [k] *)
Definition qscale (q : Quantity) (k : Q) : Quantity :=
  Qty (value q * k)%Q (unit q).

(** [q1 + q2] and [q1 - q2]: the right operand is converted to the
    unit of the left one. *)
Definition qadd (q1 q2 : Quantity) : exn + Quantity :=
  match convert (value q2) (unit q2) (unit q1) with
  | inl e => inl e
  | inr v2 => inr (Qty (value q1 + v2)%Q (unit q1))
  end.

Definition qsub (q1 q2 : Quantity) : exn + Quantity :=
  match convert (value q2) (unit q2) (unit q1) with
  | inl e => inl e
  | inr v2 => inr (Qty (value q1 - v2)%Q (unit q1))
  end.

(** [ndarray * q] *)
Definition ndarray_mul (a : list Q) (q : Quantity) : QuantityArray :=
  QtyArr (map (fun x => x * value q)%Q a) (unit q).

(** [array_quantity + q] *)
Definition arr_add (a : QuantityArray) (q : Quantity) : exn + QuantityArray :=
  match convert (value q) (unit q) (arr_unit a) with
  | inl e => inl e
  | inr v => inr (QtyArr (map (fun x => x + v)%Q (values a)) (arr_unit a))
  end.

End Units.
Import Units.

(** [generate_ra_dec] is written once and called with plain floats or
    with [Quantity] bounds; [NumberLike] is the arithmetic it relies on:
    [x - y], [ndarray * x] and [array + x]. *)
Class NumberLike (T Arr : Type) : Type := {
  nl_sub : T -> T -> exn + T;
  nl_scale : list Q -> T -> Arr;
  nl_add : Arr -> T -> exn + Arr;
}.

(** Plain numbers in exact arithmetic: no rounding and no range. *)
#[global] Instance float_NumberLike : NumberLike Q (list Q) := {|
  nl_sub := fun x y => inr (x - y)%Q;
  nl_scale := fun a x => map (fun r => r * x)%Q a;
  nl_add := fun a x => inr (map (fun r => r + x)%Q a);
|}.

#[global] Instance Quantity_NumberLike : NumberLike Quantity QuantityArray := {|
  nl_sub := qsub;
  nl_scale := ndarray_mul;
  nl_add := arr_add;
|}.

(** ** numpy float64 with its range

    A float64 that is a number, or one of the special values.  Results
    beyond the range overflow as IEEE 754 rounding to nearest does: to
    the largest float below the overflow threshold, to an infinity from
    it on.  Rounding within the range, signed zeros and underflow are
    not modelled: within the range the arithmetic is exact. *)
Inductive float64 : Type :=
| Fin (q : Q)
| PInf
| NInf
| NaN.

(** The largest float64, [2^1024 - 2^971], and the least magnitude that
    rounds to an infinity, [2^1024 - 2^970]. *)
Definition max_float : Q := inject_Z (2 ^ 1024 - 2 ^ 971).
Definition overflow_threshold : Q := inject_Z (2 ^ 1024 - 2 ^ 970).

Definition round_overflow (q : Q) : float64 :=
  if Qle_bool (Qabs q) max_float then Fin q
  else if Qle_bool overflow_threshold (Qabs q)
       then (if Qle_bool 0 q then PInf else NInf)
       else Fin (if Qle_bool 0 q then max_float else - max_float)%Q.

Definition f64_opp (x : float64) : float64 :=
  match x with
  | Fin q => Fin (- q)%Q
  | PInf => NInf
  | NInf => PInf
  | NaN => NaN
  end.

Definition f64_add (x y : float64) : float64 :=
  match x, y with
  | NaN, _ | _, NaN => NaN
  | Fin p, Fin q => round_overflow (p + q)%Q
  | PInf, NInf | NInf, PInf => NaN
  | PInf, _ | _, PInf => PInf
  | NInf, _ | _, NInf => NInf
  end.

Definition f64_sub (x y : float64) : float64 := f64_add x (f64_opp y).

Definition f64_mul (x y : float64) : float64 :=
  match x, y with
  | NaN, _ | _, NaN => NaN
  | Fin p, Fin q => round_overflow (p * q)%Q
  | Fin p, PInf | PInf, Fin p =>
      if Qeq_bool p 0 then NaN else if Qle_bool 0 p then PInf else NInf
  | Fin p, NInf | NInf, Fin p =>
      if Qeq_bool p 0 then NaN else if Qle_bool 0 p then NInf else PInf
  | PInf, PInf | NInf, NInf => PInf
  | PInf, NInf | NInf, PInf => NInf
  end.

(** [x <= y] on float64: false as soon as one side is not a number. *)
Definition f64_leb (x y : float64) : bool :=
  match x, y with
  | NaN, _ | _, NaN => false
  | Fin p, Fin q => Qle_bool p q
  | NInf, _ | _, PInf => true
  | PInf, _ | _, NInf => false
  end.

Definition f64_le (x y : float64) : Prop := f64_leb x y = true.

(** A number that a float64 can hold. *)
Definition in_float_range (q : Q) : Prop := (Qabs q <= max_float)%Q.

(** [generate_ra_dec] on plain float64 arguments, range included; the
    draws of [np.random.random] are numbers of [0, 1). *)
#[global] Instance float64_NumberLike : NumberLike float64 (list float64) := {|
  nl_sub := fun x y => inr (f64_sub x y);
  nl_scale := fun a x => map (fun r => f64_mul (Fin r) x) a;
  nl_add := fun a x => inr (map (fun r => f64_add r x) a);
|}.

(** ** Tables returned by the services *)

(** An entry of a masked column: the stored datum and its missing-data
    flag ([mv_mask = true]: the entry is flagged missing). *)
Record masked_value : Type := MV { mv_data : Q; mv_mask : bool }.

(** An astropy [MaskedColumn]; data and mask have one length. *)
Abbreviation MaskedColumn := (list masked_value).

(** [col.data.data] (the raw array) and [col.data.mask]. *)
Definition column_data (c : MaskedColumn) : list Q := map mv_data c.
Definition column_mask (c : MaskedColumn) : list bool := map mv_mask c.

(** The fill value of the service's float columns, as the comment in
    [get_2MASS_ptsrc_catalog] records it. *)
Definition fill_value : Q := 1e20%Q.

(** [col.filled().data] *)
Definition filled (c : MaskedColumn) : list Q :=
  map (fun v => if mv_mask v then fill_value else mv_data v) c.

(** The columns of the [fp_psc] answer that the module reads. *)
Inductive psc_column : Type := col_ra | col_dec | col_j_m | col_h_m | col_k_m.

Definition column_name (c : psc_column) : string :=
  match c with
  | col_ra => "ra"
  | col_dec => "dec"
  | col_j_m => "j_m"
  | col_h_m => "h_m"
  | col_k_m => "k_m"
  end.

Record psc_row : Type := PscRow {
  row_ra : masked_value;
  row_dec : masked_value;
  row_j_m : masked_value;
  row_h_m : masked_value;
  row_k_m : masked_value;
}.

(** A query-result table: its rows; every column has one entry per row. *)
Abbreviation table := (list psc_row).

Definition row_field (key : psc_column) : psc_row -> masked_value :=
  match key with
  | col_ra => row_ra
  | col_dec => row_dec
  | col_j_m => row_j_m
  | col_h_m => row_h_m
  | col_k_m => row_k_m
  end.

(** [table[key]] *)
Definition getitem (t : table) (key : psc_column) : MaskedColumn :=
  map (row_field key) t.

(** [~mask] and [m1 & m2] on boolean arrays, [a[mask]] for a boolean
    mask.  In this module the operands are always columns of one table,
    hence of one length, so numpy's shape errors cannot arise. *)
Definition invert (m : list bool) : list bool := map negb m.
Definition bitand (m1 m2 : list bool) : list bool := zip_with andb m1 m2.

Fixpoint bool_index {A : Type} (a : list A) (mask : list bool) : list A :=
  match a, mask with
  | x :: a', b :: mask' =>
      if b then x :: bool_index a' mask' else bool_index a' mask'
  | _, _ => []
  end.

(** A row of the population model's answer: the V magnitude and the four
    requested colour indices. *)
Record model_row : Type := ModelRow {
  mV : Q;
  mV_K : Q;
  mJ_K : Q;
  mJ_H : Q;
  mJ_L : Q;
}.

(** ** Requests and the outside world *)

Record irsa_region : Type := IrsaRegion {
  ir_coordinates : Q * Q;
  ir_catalog : string;
  ir_spatial : string;
  ir_width : Quantity;
}.

Record besancon_payload : Type := BesanconPayload {
  bq_glon : Q;
  bq_glat : Q;
  bq_smallfield : bool;
  bq_area : Q;
  bq_colors_limits : list (string * (Q * Q));
  bq_mag_limits : list (string * (Q * Q));
  bq_retrieve_file : bool;
  bq_email : string;
}.

Inductive request : Type :=
| IrsaRequest (region : irsa_region) (outrows : Z)
| BesanconRequest (payload : besancon_payload).

(** What lies outside the module.  [fp_psc_sources region] is the
    catalogue's complete answer for a box: every point source in it.
    [besancon_model] is the model service.  [icrs_to_galactic] is
    astropy's frame transform ([SkyCoord(..., frame='icrs').galactic]),
    which rejects ill-formed coordinates with an exception. *)
Record services : Type := Services {
  fp_psc_sources : irsa_region -> exn + table;
  besancon_model : besancon_payload -> exn + list model_row;
  icrs_to_galactic : Q -> Q -> exn + (Q * Q);
}.

(** Mutable state the module touches: the class attribute
    [Irsa.ROW_LIMIT], the requests sent over the network so far (oldest
    first) and numpy's global random source, as the sequence of its
    draws and the number already consumed. *)
Record world : Type := World {
  Irsa_ROW_LIMIT : Z;
  network_log : list request;
  rng_draws : nat -> Q;
  rng_pos : nat;
}.

(** [np.random.random] draws from the half-open interval [0, 1). *)
Definition rng_ok (w : world) : Prop :=
  forall i : nat, (0 <= rng_draws w i)%Q /\ (rng_draws w i < 1)%Q.

(** ** The state-and-exception monad *)

Definition M (A : Type) : Type := world -> (exn + A) * world.

Definition ret {A : Type} (x : A) : M A := fun w => (inr x, w).

Definition bind {A B : Type} (c : M A) (k : A -> M B) : M B :=
  fun w =>
    match c w with
    | (inl e, w') => (inl e, w')
    | (inr x, w') => k x w'
    end.

Definition raise {A : Type} (e : exn) : M A := fun w => (inl e, w).

(** A pure operation that may raise. *)
Definition lift {A : Type} (r : exn + A) : M A := fun w => (r, w).

Notation "'let*' x ':=' c 'in' k" := (bind c (fun x => k))
  (at level 10, x pattern, c at level 100, k at level 200).

(** Reading a local variable that only some branches assigned. *)
Definition local {A : Type} (name : string) (v : option A) : M A :=
  match v with
  | Some x => ret x
  | None => raise (UnboundLocalError name)
  end.

(** [for x in xs: acc = body(acc, x)] *)
Fixpoint for_each {A B : Type} (xs : list A) (body : B -> A -> M B) (acc : B) : M B :=
  match xs with
  | [] => ret acc
  | x :: xs' => let* acc' := body acc x in for_each xs' body acc'
  end.

(** [np.random.random(n)]: the next [n] draws. *)
Definition np_random_random (n : nat) : M (list Q) :=
  fun w =>
    (inr (map (rng_draws w) (seq (rng_pos w) n)),
     World (Irsa_ROW_LIMIT w) (network_log w) (rng_draws w) (rng_pos w + n)).

(** [Irsa.ROW_LIMIT = n] *)
Definition set_Irsa_ROW_LIMIT (n : Z) : M () :=
  fun w => (inr tt, World n (network_log w) (rng_draws w) (rng_pos w)).

Definition send (r : request) (w : world) : world :=
  World (Irsa_ROW_LIMIT w) (network_log w ++ [r]) (rng_draws w) (rng_pos w).

(** The service returns at most [outrows] rows; a negative [outrows]
    lifts the cap. *)
Fixpoint take_rows {A : Type} (limit : Z) (rows : list A) : list A :=
  match rows with
  | [] => []
  | r :: rest => if (limit <=? 0)%Z then [] else r :: take_rows (limit - 1) rest
  end.

Definition limit_rows {A : Type} (outrows : Z) (rows : list A) : list A :=
  if (outrows <? 0)%Z then rows else take_rows outrows rows.

(** ** The catalog object *)

(** Modelled from the spec: the class [PointSourceCatalog] of
    [mirage.catalogs.catalog_generator] is imported by the module but is
    not part of the sources at hand.  Following the data model, a catalog
    holds the RA and Dec arrays and magnitude columns keyed by
    (instrument, filter) pairs; the constructor stores the positions and
    [add_magnitude_column] stores the column under its key. *)
Record PointSourceCatalog : Type := Catalog {
  cat_ra : list Q;
  cat_dec : list Q;
  cat_magnitudes : gmap (string * string) (list Q);
}.

(** Modelled from the spec: [PointSourceCatalog(ra=..., dec=...)], a
    catalog with the given positions and no magnitude column. *)
Definition PointSourceCatalog_new (ra dec : list Q) : PointSourceCatalog :=
  Catalog ra dec ∅.

(** Modelled from the spec: [cat.add_magnitude_column(data, instrument=...,
    filter_name=...)], the column stored under its (instrument, filter)
    key. *)
Definition add_magnitude_column (cat : PointSourceCatalog) (magnitude_list : list Q)
    (instrument filter_name : string) : PointSourceCatalog :=
  Catalog (cat_ra cat) (cat_dec cat)
          (<[(instrument, filter_name) := magnitude_list]> (cat_magnitudes cat)).

(** The catalog invariant of the data model. *)
Definition catalog_aligned (cat : PointSourceCatalog) : Prop :=
  length (cat_dec cat) = length (cat_ra cat) /\
  map_Forall (fun _ col => length col = length (cat_ra cat)) (cat_magnitudes cat).

(** ** Helper functions of the module *)

(** [filter_bad_ra_dec(table_data)].  The table is a mutable object
    handed over by reference: the second component is the table as the
    call leaves it. *)
Definition filter_bad_ra_dec (table_data : table) : list bool * table :=
  let ra_data := column_data (getitem table_data col_ra) in
  let ra_mask := invert (column_mask (getitem table_data col_ra)) in
  let dec_data := column_data (getitem table_data col_dec) in
  let dec_mask := invert (column_mask (getitem table_data col_dec)) in
  let position_mask := bitand ra_mask dec_mask in
  (position_mask, table_data).

(** [generate_ra_dec(number_of_stars, ra_min, ra_max, dec_min, dec_max)] *)
Definition generate_ra_dec {T Arr : Type} `{NumberLike T Arr} (number_of_stars : nat)
    (ra_min ra_max dec_min dec_max : T) : M (Arr * Arr) :=
  let* delta_ra := lift (nl_sub ra_max ra_min) in
  let* r := np_random_random number_of_stars in
  let* ra_list := lift (nl_add (nl_scale r delta_ra) ra_min) in
  let* delta_dec := lift (nl_sub dec_max dec_min) in
  let* r := np_random_random number_of_stars in
  let* dec_list := lift (nl_add (nl_scale r delta_dec) dec_min) in
  ret (ra_list, dec_list).

(** Lines 89-93 of [besancon]: the band magnitudes, column by column. *)
Definition besancon_magnitudes (model : list model_row)
    : list Q * list Q * list Q * list Q :=
  let k_mags := zip_with Qminus (map mV model) (map mV_K model) in
  let j_mags := zip_with Qplus k_mags (map mJ_K model) in
  let h_mags := zip_with Qminus j_mags (map mJ_H model) in
  let l_mags := zip_with Qminus j_mags (map mJ_L model) in
  (k_mags, j_mags, h_mags, l_mags).

Section CreateCatalog.

Variable S : services.

(** [Irsa.query_region]: one request, carrying the current
    [Irsa.ROW_LIMIT]; the answer holds at most that many rows. *)
Definition Irsa_query_region (coordinates : Q * Q) (catalog spatial : string)
    (width : Quantity) : M table :=
  fun w =>
    let region := IrsaRegion coordinates catalog spatial width in
    let outrows := Irsa_ROW_LIMIT w in
    let w' := send (IrsaRequest region outrows) w in
    match fp_psc_sources S region with
    | inl e => (inl e, w')
    | inr rows => (inr (limit_rows outrows rows), w')
    end.

(** [Besancon.query]: one request to the model service. *)
Definition Besancon_query (payload : besancon_payload) : M (list model_row) :=
  fun w => (besancon_model S payload, send (BesanconRequest payload) w).

(** [get_2MASS_ptsrc_catalog(ra, dec, box_width)].  The formatted
    string [ra_dec_string] is kept as the pair it is built from, and
    [query_table['ra'].data.data.data] is read as the raw array of the
    column. *)
Definition get_2MASS_ptsrc_catalog (ra dec box_width : Q) : M PointSourceCatalog :=
  let* _ := set_Irsa_ROW_LIMIT 1000000 in
  let ra_dec_string := (ra, dec) in
  let* query_table :=
    Irsa_query_region ra_dec_string "fp_psc" "Box" (Qty box_width arcsec) in
  let '(radec_mask, query_table) := filter_bad_ra_dec query_table in
  let cat :=
    PointSourceCatalog_new
      (bool_index (column_data (getitem query_table col_ra)) radec_mask)
      (bool_index (column_data (getitem query_table col_dec)) radec_mask) in
  let* cat :=
    for_each [col_j_m; col_h_m; col_k_m]
      (fun cat key =>
         let data := filled (getitem query_table key) in
         ret (add_magnitude_column cat data "2MASS" (column_name key)))
      cat in
  ret cat.

(** Lines 71-77 of [besancon]: the [if]/[elif] on [coords].  The locals
    [coord1] and [coord2] are bound by its two branches only; the result
    is their state after the statement ([None]: unbound). *)
Definition besancon_coords (ra dec : Quantity) (coords : string)
    : M (option Q * option Q) :=
  if String.eqb coords "ra_dec" then
    let* location := lift (icrs_to_galactic S (value ra) (value dec)) in
    let coord1 := fst location in
    let coord2 := snd location in
    ret (Some coord1, Some coord2)
  else if String.eqb coords "galactic" then
    let coord1 := value ra in
    let coord2 := value dec in
    ret (Some coord1, Some coord2)
  else ret (None, None).

(** [besancon(ra, dec, box_width, coords, email, kmag_limits)].  The
    locals [coord1] and [coord2] are read when the arguments of
    [Besancon.query] are evaluated, the first positional argument
    first.  The catalog is handed the two [Quantity] arrays of
    [generate_ra_dec] and keeps their numbers, which are in degrees. *)
Definition besancon (ra dec box_width : Q) (coords email : string)
    (kmag_limits : Q * Q) : M PointSourceCatalog :=
  let ra := Qty ra deg in
  let dec := Qty dec deg in
  let box_width := Qty box_width arcsec in
  let* coord12 := besancon_coords ra dec coords in
  let '(coord1, coord2) := coord12 in
  let area := qmul box_width box_width in
  let* area := lift (to area (unit_mul deg deg)) in
  let* glon := local "coord1" coord1 in
  let* glat := local "coord2" coord2 in
  let* model :=
    Besancon_query
      (BesanconPayload glon glat true (value area)
         [("J-H", (-99, 99)%Q); ("J-K", (-99, 99)%Q);
          ("J-L", (-99, 99)%Q); ("V-K", (-99, 99)%Q)]
         [("K", kmag_limits)] true email) in
  let '(k_mags, j_mags, h_mags, l_mags) := besancon_magnitudes model in
  let half_width := qscale box_width 0.5 in
  let* min_ra := lift (qsub ra half_width) in
  let* max_ra := lift (qadd ra half_width) in
  let* min_dec := lift (qsub dec half_width) in
  let* max_dec := lift (qadd dec half_width) in
  let* ra_dec_values :=
    generate_ra_dec (length k_mags) min_ra max_ra min_dec max_dec in
  let '(ra_values, dec_values) := ra_dec_values in
  let cat := PointSourceCatalog_new (values ra_values) (values dec_values) in
  let cat := add_magnitude_column cat j_mags "Besancon" "j" in
  let cat := add_magnitude_column cat h_mags "Besancon" "h" in
  let cat := add_magnitude_column cat k_mags "Besancon" "k" in
  let cat := add_magnitude_column cat l_mags "Besancon" "l" in
  ret cat.

(** The presets with complete coordinates. *)
Definition galactic_plane (box_width : Q) (email : string) : M PointSourceCatalog :=
  let representative_galactic_longitude := 45%Q in
  let representative_galactic_latitude := 0%Q in
  besancon representative_galactic_longitude representative_galactic_latitude
           box_width "galactic" email (10, 29)%Q.

Definition out_of_plane (box_width : Q) (email : string) : M PointSourceCatalog :=
  let representative_galactic_longitude := 45%Q in
  let representative_galactic_latitude := 85%Q in
  besancon representative_galactic_longitude representative_galactic_latitude
           box_width "galactic" email (10, 29)%Q.

End CreateCatalog.

(** ** Vocabulary of the properties *)

(** A row has a usable position: neither its RA nor its Dec is flagged
    missing. *)
Definition position_ok (r : psc_row) : bool :=
  negb (mv_mask (row_ra r)) && negb (mv_mask (row_dec r)).

(** Number of rows with a usable position among the first [i] rows:
    the index at which row [i] lands after boolean-mask selection. *)
Definition kept_before (t : table) (i : nat) : nat :=
  length (List.filter position_ok (take i t)).

(** The magnitude columns the survey query copies. *)
Definition magnitude_keys : list psc_column := [col_j_m; col_h_m; col_k_m].

(** The [n] draws that [np.random.random(n)] hands out in world [w]. *)
Definition next_draws (w : world) (n : nat) : list Q :=
  map (rng_draws w) (seq (rng_pos w) n).

(** The world after [n] draws. *)
Definition after_draws (w : world) (n : nat) : world :=
  World (Irsa_ROW_LIMIT w) (network_log w) (rng_draws w) (rng_pos w + n).

(** [draws * (hi - lo) + lo], entry by entry. *)
Definition spread (lo hi : Q) (draws : list Q) : list Q :=
  map (fun r => r + lo)%Q (map (fun r => r * (hi - lo))%Q draws).

(** ** Closed forms of the two queries

    What the monadic definitions compute, written without effects; the
    lemmas [get_2MASS_ptsrc_catalog_run] and [besancon_run] prove that
    the code computes exactly these. *)

(** Lines 29-38 of [get_2MASS_ptsrc_catalog] on a query table, with the
    loop over the three keys unrolled. *)
Definition catalog_of_table (query_table : table) : PointSourceCatalog :=
  Catalog
    (bool_index (column_data (getitem query_table col_ra)) (map position_ok query_table))
    (bool_index (column_data (getitem query_table col_dec)) (map position_ok query_table))
    (<[("2MASS", "k_m") := filled (getitem query_table col_k_m)]>
       (<[("2MASS", "h_m") := filled (getitem query_table col_h_m)]>
          (<[("2MASS", "j_m") := filled (getitem query_table col_j_m)]> ∅))).

(** The area line 81 obtains from a box width given in arcsec. *)
Definition box_area (box_width : Q) : Q :=
  (box_width * box_width * (scale (unit_mul arcsec arcsec) / scale (unit_mul deg deg)))%Q.

(** The request that line 84 sends for galactic coordinates
    [(glon, glat)]. *)
Definition model_request (glon glat box_width : Q) (email : string)
    (kmag_limits : Q * Q) : besancon_payload :=
  BesanconPayload glon glat true (box_area box_width)
    [("J-H", (-99, 99)%Q); ("J-K", (-99, 99)%Q); ("J-L", (-99, 99)%Q); ("V-K", (-99, 99)%Q)]
    [("K", kmag_limits)] true email.

(** Half the box width as lines 98-102 add it to a position in degrees. *)
Definition half_width_deg (box_width : Q) : Q :=
  (box_width * 0.5 * (scale arcsec / scale deg))%Q.

(** The band magnitudes of one row. *)
Definition row_magnitudes (r : model_row) : Q * Q * Q * Q :=
  let k := (mV r - mV_K r)%Q in
  let j := (k + mJ_K r)%Q in
  let h := (j - mJ_H r)%Q in
  let l := (j - mJ_L r)%Q in
  (k, j, h, l).

(** The catalog that lines 89-112 build from the model's answer, with
    the random draws of world [w]. *)
Definition model_catalog (ra dec box_width : Q) (model : list model_row) (w : world)
    : PointSourceCatalog :=
  let '(k_mags, j_mags, h_mags, l_mags) := besancon_magnitudes model in
  let n := length k_mags in
  let hw := half_width_deg box_width in
  Catalog
    (spread (ra - hw) (ra + hw) (next_draws w n))
    (spread (dec - hw) (dec + hw) (next_draws (after_draws w n) n))
    (<[("Besancon", "l") := l_mags]>
       (<[("Besancon", "k") := k_mags]>
          (<[("Besancon", "h") := h_mags]>
             (<[("Besancon", "j") := j_mags]> ∅)))).

(** ** Sample inputs *)

Definition present (x : Q) : masked_value := MV x false.
Definition missing : masked_value := MV 0 true.

(** Two sources: the first has no RA, the second no J magnitude. *)
Definition sample_table : table :=
  [ PscRow missing (present 1) (present 5) (present 6) (present 7);
    PscRow (present 10) (present 20) missing (present 3) (present 4) ].

(** Two model stars; the first is the worked example of the magnitude
    derivation. *)
Definition sample_model : list model_row :=
  [ ModelRow 15.0 2.0 1.0 0.5 1.5; ModelRow 10 1 1 1 1 ].

(** Services that answer every survey query with [sources], every model
    query with [sample_model], and whose frame transform is a fixed
    shift. *)
Definition sample_services (sources : table) : services :=
  Services (fun _ => inr sources) (fun _ => inr sample_model)
           (fun ra dec => inr (ra + 30, dec - 10)%Q).

(** A fresh process: the library's default row limit, no request sent,
    draws alternating between 1/4 and 3/4. *)
Definition sample_world : world :=
  World 500 [] (fun i => if Nat.even i then (1 # 4)%Q else (3 # 4)%Q) 0.

(** A field of 1000001 sources, all with usable positions. *)
Definition bright_source : psc_row :=
  PscRow (present 266) (present (-29)) (present 12) (present 11) (present 10).

Definition crowded_field : table := replicate (Z.to_nat 1000001) bright_source.

(** The sample call of [besancon]: a one-degree box in galactic
    coordinates. *)
Definition sample_payload : besancon_payload :=
  model_request 100 20 3600 "observer@example.org" (10, 29)%Q.

Definition sample_sent : world := send (BesanconRequest sample_payload) sample_world.

Definition sample_catalog : PointSourceCatalog :=
  model_catalog 100 20 3600 sample_model sample_sent.

(** Services that are down: both remote services refuse, and the frame
    transform rejects its input. *)
Definition unreachable : exn := RemoteServiceError "service unreachable".

Definition failing_services : services :=
  Services (fun _ => inl unreachable) (fun _ => inl unreachable)
           (fun _ _ => inl (ValueError "latitude out of range")).

(** The sample table with other stored numbers and other magnitude
    flags, the RA and Dec flags being the same. *)
Definition sample_table_reflagged : table :=
  [ PscRow missing (present 2) missing (present 0) missing;
    PscRow (present 11) (present 21) (present 9) missing (present 8) ].

(** The sample calls of the presets: one-degree boxes. *)
Definition sample_plane_sent : world :=
  send (BesanconRequest (model_request 45 0 3600 "observer@example.org" (10, 29)%Q))
       sample_world.

Definition sample_plane_catalog : PointSourceCatalog :=
  model_catalog 45 0 3600 sample_model sample_plane_sent.

Definition sample_pole_sent : world :=
  send (BesanconRequest (model_request 45 85 3600 "observer@example.org" (10, 29)%Q))
       sample_world.

Definition sample_pole_catalog : PointSourceCatalog :=
  model_catalog 45 85 3600 sample_model sample_pole_sent.

(** * Properties *)

(** ** Boolean masks and row limits *)

Section ListFacts.

Context {A B : Type}.

Lemma map_fmap (f : A -> B) (l : list A) : map f l = f <$> l.
Proof. reflexivity. Qed.

Lemma bool_index_map (f : A -> B) (p : A -> bool) (l : list A) :
  bool_index (map f l) (map p l) = map f (List.filter p l).
Proof.
  induction l as [|x l IH]; simpl; [done|].
  destruct (p x); simpl; by rewrite IH.
Qed.

Lemma bool_index_rows (p : A -> bool) (l : list A) :
  bool_index l (map p l) = List.filter p l.
Proof.
  induction l as [|x l IH]; simpl; [done|].
  destruct (p x); simpl; by rewrite IH.
Qed.

Lemma filter_all (p : A -> bool) (l : list A) :
  Forall (fun x => p x = true) l -> List.filter p l = l.
Proof.
  induction 1 as [|x l Hx _ IH]; simpl; [done|]. by rewrite Hx, IH.
Qed.

Lemma filter_lookup_kept (p : A -> bool) (l : list A) (i : nat) (x : A) :
  l !! i = Some x -> p x = true ->
  List.filter p l !! length (List.filter p (take i l)) = Some x.
Proof.
  revert i. induction l as [|y l IH]; intros [|i] Hi Hp; simpl in *; try done.
  - simplify_eq. by rewrite Hp.
  - destruct (p y); simpl; by apply IH.
Qed.

Lemma filter_length_le (p : A -> bool) (l : list A) :
  length (List.filter p l) <= length l.
Proof. induction l as [|x l IH]; simpl; [lia|]. destruct (p x); simpl; lia. Qed.

Lemma filter_length_all (p : A -> bool) (l : list A) :
  length (List.filter p l) = length l -> Forall (fun x => p x = true) l.
Proof.
  induction l as [|x l IH]; simpl; [constructor|].
  pose proof (filter_length_le p l).
  destruct (p x) eqn:Hx; simpl; intros Hlen; [|lia].
  constructor; [done|]. apply IH. lia.
Qed.

Lemma zip_with_map_map {C D : Type} (f : B -> C -> D) (g : A -> B) (h : A -> C)
    (l : list A) :
  zip_with f (map g l) (map h l) = map (fun x => f (g x) (h x)) l.
Proof. induction l as [|x l IH]; simpl; [done|]. by rewrite IH. Qed.

Lemma take_rows_length (limit : Z) (l : list A) :
  Z.of_nat (length (take_rows limit l)) = Z.max 0 (Z.min limit (Z.of_nat (length l))).
Proof.
  revert limit. induction l as [|x l IH]; intros limit; simpl.
  - lia.
  - destruct (Z.leb_spec limit 0); simpl length; [lia|].
    rewrite Nat2Z.inj_succ, IH. lia.
Qed.

Lemma take_rows_Forall (P : A -> Prop) (limit : Z) (l : list A) :
  Forall P l -> Forall P (take_rows limit l).
Proof.
  intros H. revert limit. induction H as [|x l Hx _ IH]; intros limit; simpl.
  - constructor.
  - destruct (limit <=? 0)%Z; constructor; auto.
Qed.

Lemma take_rows_all (limit : Z) (l : list A) :
  (Z.of_nat (length l) <= limit)%Z -> take_rows limit l = l.
Proof.
  revert limit. induction l as [|x l IH]; intros limit Hlen; simpl in *; [done|].
  destruct (Z.leb_spec limit 0); [lia|]. f_equal. apply IH. lia.
Qed.

End ListFacts.

(** ** The row-validity filter *)

Lemma position_mask_rows (t : table) :
  (filter_bad_ra_dec t).1 = map position_ok t.
Proof.
  unfold filter_bad_ra_dec, bitand, invert, column_mask, getitem; simpl.
  induction t as [|r t IH]; simpl; [done|]. by rewrite IH.
Qed.

Lemma position_ok_spec (r : psc_row) :
  position_ok r = true <-> mv_mask (row_ra r) = false /\ mv_mask (row_dec r) = false.
Proof.
  unfold position_ok.
  destruct (mv_mask (row_ra r)), (mv_mask (row_dec r)); simpl; intuition congruence.
Qed.

(** When every earlier row has a usable position, a row keeps its
    index through the selection. *)
Lemma kept_before_aligned (t : table) (i : nat) :
  Forall (fun r => position_ok r = true) (take i t) -> i <= length t ->
  kept_before t i = i.
Proof.
  intros Hok Hi. unfold kept_before. rewrite (filter_all _ _ Hok).
  rewrite length_take. lia.
Qed.

(** C6: [filter_bad_ra_dec] returns one boolean per row, true exactly
    when neither the row's RA nor its Dec is flagged missing; it leaves
    the table as it received it; hence every row selected by the mask
    has neither RA nor Dec flagged missing in the source table. *)
Theorem filter_bad_ra_dec_correct (t : table) :
  length (filter_bad_ra_dec t).1 = length t /\
  (forall (i : nat) (r : psc_row), t !! i = Some r ->
     exists b : bool,
       (filter_bad_ra_dec t).1 !! i = Some b /\
       (b = true <-> mv_mask (row_ra r) = false /\ mv_mask (row_dec r) = false)) /\
  (filter_bad_ra_dec t).2 = t /\
  (forall r : psc_row, r ∈ bool_index t (filter_bad_ra_dec t).1 ->
     r ∈ t /\ mv_mask (row_ra r) = false /\ mv_mask (row_dec r) = false).
Proof.
  rewrite position_mask_rows. split_and!.
  - by rewrite length_map.
  - intros i r Hi. exists (position_ok r). split.
    + by rewrite map_fmap, list_lookup_fmap, Hi.
    + apply position_ok_spec.
  - done.
  - intros r. rewrite bool_index_rows, list_elem_of_In, filter_In, <- list_elem_of_In.
    intros [Hin Hok]. split; [done|]. by apply position_ok_spec.
Qed.

(** ** The survey query *)

Lemma catalog_of_table_ra_length (t : table) :
  length (cat_ra (catalog_of_table t)) = length (List.filter position_ok t).
Proof.
  unfold catalog_of_table, column_data, getitem; simpl.
  by rewrite map_map, bool_index_map, length_map.
Qed.

Lemma catalog_of_table_dec_length (t : table) :
  length (cat_dec (catalog_of_table t)) = length (List.filter position_ok t).
Proof.
  unfold catalog_of_table, column_data, getitem; simpl.
  by rewrite map_map, bool_index_map, length_map.
Qed.

Lemma catalog_of_table_column (t : table) (key : psc_column) :
  key ∈ magnitude_keys ->
  cat_magnitudes (catalog_of_table t) !! ("2MASS", column_name key)
  = Some (filled (getitem t key)).
Proof.
  unfold magnitude_keys. rewrite !elem_of_cons, elem_of_nil.
  intros [->|[->|[->|[]]]]; unfold catalog_of_table; simpl.
  - do 2 (rewrite lookup_insert_ne by done). by rewrite lookup_insert_eq.
  - rewrite lookup_insert_ne by done. by rewrite lookup_insert_eq.
  - by rewrite lookup_insert_eq.
Qed.

Lemma filled_length (c : MaskedColumn) : length (filled c) = length c.
Proof. unfold filled. by rewrite length_map. Qed.

Lemma getitem_length (t : table) (key : psc_column) : length (getitem t key) = length t.
Proof. unfold getitem. by rewrite length_map. Qed.

(** The columns line up with the positions exactly when no row of the
    query table has a flagged RA or Dec. *)
Lemma catalog_of_table_aligned (t : table) :
  catalog_aligned (catalog_of_table t) <-> Forall (fun r => position_ok r = true) t.
Proof.
  unfold catalog_aligned.
  rewrite catalog_of_table_dec_length, catalog_of_table_ra_length. split.
  - intros [_ Hcols]. apply filter_length_all.
    specialize (Hcols ("2MASS", "j_m") _ (catalog_of_table_column t col_j_m ltac:(set_solver))).
    simpl in Hcols. by rewrite filled_length, getitem_length in Hcols.
  - intros Hok. split; [done|]. rewrite (filter_all _ _ Hok).
    unfold catalog_of_table; simpl.
    repeat (apply map_Forall_insert_2; [by rewrite filled_length, getitem_length|]).
    apply map_Forall_empty.
Qed.

Section SurveyQuery.

Variable S : services.

(** What one call does: the limit is set to 1000000, one request is
    sent, a service failure propagates, and otherwise the catalog is
    built from the first 1000000 rows of the service's answer. *)
Lemma get_2MASS_ptsrc_catalog_run (ra dec box_width : Q) (w : world) :
  get_2MASS_ptsrc_catalog S ra dec box_width w =
  let region := IrsaRegion (ra, dec) "fp_psc" "Box" (Qty box_width arcsec) in
  let w' := send (IrsaRequest region 1000000)
              (World 1000000 (network_log w) (rng_draws w) (rng_pos w)) in
  match fp_psc_sources S region with
  | inl e => (inl e, w')
  | inr sources => (inr (catalog_of_table (take_rows 1000000 sources)), w')
  end.
Proof.
  unfold get_2MASS_ptsrc_catalog, bind, set_Irsa_ROW_LIMIT, Irsa_query_region; simpl.
  destruct (fp_psc_sources S _) as [e|sources]; [done|].
  unfold limit_rows; simpl.
  pose proof (position_mask_rows (take_rows 1000000 sources)) as Hmask.
  unfold filter_bad_ra_dec in *; simpl in *.
  unfold catalog_of_table, add_magnitude_column, PointSourceCatalog_new, ret; simpl.
  by rewrite Hmask.
Qed.

(** The catalog a call returns satisfies the catalog invariant exactly
    when no row of the query table has a flagged RA or Dec. *)
Lemma get_2MASS_aligned_iff (ra dec box_width : Q) (w : world) (sources : table) :
  fp_psc_sources S (IrsaRegion (ra, dec) "fp_psc" "Box" (Qty box_width arcsec)) = inr sources ->
  exists cat : PointSourceCatalog,
    (get_2MASS_ptsrc_catalog S ra dec box_width w).1 = inr cat /\
    (catalog_aligned cat <->
     Forall (fun r => position_ok r = true) (take_rows 1000000 sources)).
Proof.
  intros Hsrc. rewrite get_2MASS_ptsrc_catalog_run; simpl. rewrite Hsrc; simpl.
  eexists; split; [reflexivity|]. apply catalog_of_table_aligned.
Qed.

(** No call returns more than 1000000 sources. *)
Lemma get_2MASS_at_most_one_million (ra dec box_width : Q) (w w' : world)
    (cat : PointSourceCatalog) :
  get_2MASS_ptsrc_catalog S ra dec box_width w = (inr cat, w') ->
  (Z.of_nat (length (cat_ra cat)) <= 1000000)%Z.
Proof.
  rewrite get_2MASS_ptsrc_catalog_run; simpl.
  destruct (fp_psc_sources S _) as [e|sources]; [done|]. intros [= <- _].
  unfold catalog_of_table, column_data, getitem; simpl.
  rewrite map_map, bool_index_map, length_map.
  pose proof (filter_length_le position_ok (take_rows 1000000 sources)).
  pose proof (take_rows_length 1000000 sources). lia.
Qed.

(** A box of at most 1000000 sources is returned whole. *)
Lemma get_2MASS_complete_below_limit (ra dec box_width : Q) (w : world) (sources : table) :
  fp_psc_sources S (IrsaRegion (ra, dec) "fp_psc" "Box" (Qty box_width arcsec)) = inr sources ->
  (Z.of_nat (length sources) <= 1000000)%Z ->
  (get_2MASS_ptsrc_catalog S ra dec box_width w).1 = inr (catalog_of_table sources).
Proof.
  intros Hsrc Hlen. rewrite get_2MASS_ptsrc_catalog_run; simpl. rewrite Hsrc; simpl.
  by rewrite take_rows_all.
Qed.

End SurveyQuery.

(** C1: the magnitude columns of the catalog returned by
    [get_2MASS_ptsrc_catalog] should be as long as its RA and Dec arrays.
    Evaluated on a query table of two rows whose first row has a flagged
    RA: the catalog holds one position, each of the three magnitude
    columns holds two entries, and the catalog invariant fails. *)
Theorem get_2MASS_columns_outgrow_positions :
  exists cat : PointSourceCatalog,
    (get_2MASS_ptsrc_catalog (sample_services sample_table) 10 20 60 sample_world).1 = inr cat /\
    length (cat_ra cat) = 1 /\ length (cat_dec cat) = 1 /\
    (forall key : psc_column, key ∈ magnitude_keys ->
       exists col : list Q,
         cat_magnitudes cat !! ("2MASS", column_name key) = Some col /\ length col = 2) /\
    ~ catalog_aligned cat.
Proof.
  rewrite get_2MASS_ptsrc_catalog_run; simpl.
  eexists; split; [reflexivity|]. split_and!.
  - reflexivity.
  - reflexivity.
  - intros key Hkey. eexists. split; [by apply catalog_of_table_column|reflexivity].
  - rewrite catalog_of_table_aligned. intros Hok.
    apply Forall_cons in Hok as [Hok _]. discriminate Hok.
Qed.

(** C2: [get_2MASS_ptsrc_catalog] should return every source of the
    box.  Evaluated on a box holding 1000001 sources with usable
    positions: the request carries the row limit 1000000 and the catalog
    holds 1000000 sources. *)
Theorem get_2MASS_capped_at_one_million :
  Z.of_nat (length crowded_field) = 1000001%Z /\
  exists (cat : PointSourceCatalog) (w' : world),
    get_2MASS_ptsrc_catalog (sample_services crowded_field) 266 (-29) 36000 sample_world
      = (inr cat, w') /\
    Irsa_ROW_LIMIT w' = 1000000%Z /\
    network_log w' =
      [IrsaRequest (IrsaRegion (266, -29)%Q "fp_psc" "Box" (Qty 36000 arcsec)) 1000000] /\
    Z.of_nat (length (cat_ra cat)) = 1000000%Z /\
    Z.of_nat (length (cat_dec cat)) = 1000000%Z.
Proof.
  assert (Hlen : Z.of_nat (length crowded_field) = 1000001%Z).
  { unfold crowded_field. rewrite length_replicate. by rewrite Z2Nat.id. }
  assert (Hok : Forall (fun r => position_ok r = true) crowded_field).
  { unfold crowded_field. apply Forall_replicate. reflexivity. }
  split; [done|].
  rewrite get_2MASS_ptsrc_catalog_run.
  change (fp_psc_sources (sample_services crowded_field) _) with (@inr exn table crowded_field).
  cbv beta iota zeta.
  eexists _, _. split; [reflexivity|]. split_and!.
  - reflexivity.
  - reflexivity.
  - rewrite catalog_of_table_ra_length, filter_all by (by apply take_rows_Forall).
    rewrite take_rows_length, Hlen. done.
  - rewrite catalog_of_table_dec_length, filter_all by (by apply take_rows_Forall).
    rewrite take_rows_length, Hlen. done.
Qed.

(** What the code does with a row of the query table whose RA and Dec
    are unflagged and whose magnitude entry is flagged: its position is
    in the catalog at the index it has among the rows with usable
    positions, while the stored magnitude column is the whole filled
    column of the query table and holds 1e20 at the row's index in the
    table.  The two indices agree when no earlier row has a flagged
    position. *)
Lemma get_2MASS_keeps_filled_magnitudes (S : services) (ra dec box_width : Q)
    (w : world) (sources : table) (key : psc_column) (i : nat) (r : psc_row) :
  let query_table := take_rows 1000000 sources in
  fp_psc_sources S (IrsaRegion (ra, dec) "fp_psc" "Box" (Qty box_width arcsec)) = inr sources ->
  key ∈ magnitude_keys ->
  query_table !! i = Some r ->
  mv_mask (row_ra r) = false ->
  mv_mask (row_dec r) = false ->
  mv_mask (row_field key r) = true ->
  exists cat : PointSourceCatalog,
    (get_2MASS_ptsrc_catalog S ra dec box_width w).1 = inr cat /\
    cat_ra cat !! kept_before query_table i = Some (mv_data (row_ra r)) /\
    cat_dec cat !! kept_before query_table i = Some (mv_data (row_dec r)) /\
    cat_magnitudes cat !! ("2MASS", column_name key)
      = Some (map (fun v => if mv_mask v then 1e20%Q else mv_data v) (getitem query_table key)) /\
    (forall col : list Q,
       cat_magnitudes cat !! ("2MASS", column_name key) = Some col ->
       length col = length query_table /\ col !! i = Some 1e20%Q) /\
    (Forall (fun r' => position_ok r' = true) (take i query_table) ->
     kept_before query_table i = i).
Proof.
  intros query_table Hsrc Hkey Hi Hra Hdec Hmag.
  assert (Hok : position_ok r = true) by (by apply position_ok_spec).
  rewrite get_2MASS_ptsrc_catalog_run; simpl. rewrite Hsrc; simpl.
  fold query_table. eexists; split; [reflexivity|].
  pose proof (catalog_of_table_column query_table key Hkey) as Hcol.
  split_and!.
  - unfold catalog_of_table, column_data, getitem, kept_before; simpl.
    rewrite map_map, bool_index_map, map_fmap, list_lookup_fmap.
    by rewrite (filter_lookup_kept _ _ _ _ Hi Hok).
  - unfold catalog_of_table, column_data, getitem, kept_before; simpl.
    rewrite map_map, bool_index_map, map_fmap, list_lookup_fmap.
    by rewrite (filter_lookup_kept _ _ _ _ Hi Hok).
  - exact Hcol.
  - intros col Hcol'. rewrite Hcol in Hcol'. simplify_eq. split.
    + by rewrite filled_length, getitem_length.
    + unfold filled, getitem. rewrite map_map, map_fmap, list_lookup_fmap, Hi; simpl.
      by rewrite Hmag.
  - intros Hbefore. apply kept_before_aligned; [done|].
    apply lookup_lt_Some in Hi. lia.
Qed.

(** C7: a row with unflagged RA and Dec and a flagged magnitude should be
    kept in the catalog with 1e20 as its magnitude.  Evaluated on the
    query table of two rows whose first row has a flagged RA and whose
    second row, at (10, 20), has a flagged J magnitude: the catalog
    holds that one star, at index 0, while the J column is the whole
    filled column [5, 1e20]; the star's entry of the column, at index 0,
    is 5, the magnitude of the dropped row, and the 1e20 sits at index 1,
    where the catalog has no star. *)
Theorem get_2MASS_kept_row_misses_its_fill_value :
  exists cat : PointSourceCatalog,
    (get_2MASS_ptsrc_catalog (sample_services sample_table) 10 20 60 sample_world).1 = inr cat /\
    cat_ra cat = [10%Q] /\ cat_dec cat = [20%Q] /\
    cat_magnitudes cat !! ("2MASS", "j_m") = Some [5%Q; 1e20%Q] /\
    (forall col : list Q,
       cat_magnitudes cat !! ("2MASS", "j_m") = Some col ->
       col !! 0 = Some 5%Q /\ col !! 0 <> Some 1e20%Q /\
       col !! 1 = Some 1e20%Q /\ cat_ra cat !! 1 = None).
Proof.
  exists (catalog_of_table sample_table).
  split; [by rewrite get_2MASS_ptsrc_catalog_run|].
  assert (Hcol : cat_magnitudes (catalog_of_table sample_table) !! ("2MASS", "j_m")
                 = Some [5%Q; 1e20%Q]).
  { apply (catalog_of_table_column sample_table col_j_m), list_elem_of_here. }
  split; [reflexivity|]. split; [reflexivity|]. split; [exact Hcol|].
  intros col Hcol'. rewrite Hcol in Hcol'. injection Hcol' as <-.
  split_and!; try reflexivity. discriminate.
Qed.

(** ** Random positions *)

Lemma next_draws_unit (w : world) (n : nat) :
  rng_ok w -> Forall (fun r => 0 <= r /\ r < 1)%Q (next_draws w n).
Proof.
  intros Hw. unfold next_draws. apply Forall_forall. intros r Hr.
  apply list_elem_of_In, in_map_iff in Hr as (i & <- & _). apply Hw.
Qed.

Lemma next_draws_after (w : world) (n m : nat) :
  rng_ok w -> Forall (fun r => 0 <= r /\ r < 1)%Q (next_draws (after_draws w n) m).
Proof. intros Hw. apply next_draws_unit. exact Hw. Qed.

Lemma spread_length (lo hi : Q) (draws : list Q) :
  length (spread lo hi draws) = length draws.
Proof. unfold spread. by rewrite !length_map. Qed.

Lemma next_draws_length (w : world) (n : nat) : length (next_draws w n) = n.
Proof. unfold next_draws. by rewrite length_map, length_seq. Qed.

(** A draw from [0, 1), scaled by the width of a range and shifted to
    its lower end, lies in the range. *)
Lemma spread_within (lo hi : Q) (draws : list Q) :
  (lo <= hi)%Q ->
  Forall (fun r => 0 <= r /\ r < 1)%Q draws ->
  Forall (fun x => lo <= x /\ x <= hi)%Q (spread lo hi draws).
Proof.
  intros Hle Hdraws. unfold spread. rewrite map_map.
  induction Hdraws as [|r rs [H0 H1] _ IH]; simpl; constructor; [|exact IH].
  split; nra.
Qed.

Lemma generate_ra_dec_float_run (n : nat) (ra_min ra_max dec_min dec_max : Q) (w : world) :
  generate_ra_dec n ra_min ra_max dec_min dec_max w =
  (inr (spread ra_min ra_max (next_draws w n),
        spread dec_min dec_max (next_draws (after_draws w n) n)),
   after_draws (after_draws w n) n).
Proof. reflexivity. Qed.

Lemma generate_ra_dec_Quantity_run (n : nat) (ra_min ra_max dec_min dec_max : Q)
    (u v : unit_t) (w : world) :
  generate_ra_dec n (Qty ra_min u) (Qty ra_max u) (Qty dec_min v) (Qty dec_max v) w =
  (inr (QtyArr (spread ra_min ra_max (next_draws w n)) u,
        QtyArr (spread dec_min dec_max (next_draws (after_draws w n) n)) v),
   after_draws (after_draws w n) n).
Proof.
  unfold generate_ra_dec, bind, lift, np_random_random; simpl.
  unfold qsub, arr_add, convert; simpl.
  by rewrite !decide_True by done.
Qed.

(** In exact arithmetic, without the range of float64: with count 0 the
    two sequences are empty; with count [N] and ordered bounds they hold
    [N] values each, within the bounds.  The statement with the range of
    float64 is [generate_ra_dec_float64_within_bounds]. *)
Lemma generate_ra_dec_within_bounds (ra_min ra_max dec_min dec_max : Q) (w : world) :
  (generate_ra_dec 0 ra_min ra_max dec_min dec_max w).1 = inr ([], []) /\
  forall N : nat,
    rng_ok w -> (ra_min <= ra_max)%Q -> (dec_min <= dec_max)%Q ->
    exists ra_list dec_list : list Q,
      (generate_ra_dec N ra_min ra_max dec_min dec_max w).1 = inr (ra_list, dec_list) /\
      length ra_list = N /\ length dec_list = N /\
      Forall (fun x => ra_min <= x /\ x <= ra_max)%Q ra_list /\
      Forall (fun x => dec_min <= x /\ x <= dec_max)%Q dec_list.
Proof.
  split; [reflexivity|].
  intros N Hw Hra Hdec. rewrite generate_ra_dec_float_run; simpl.
  eexists _, _. split; [reflexivity|]. split_and!.
  - by rewrite spread_length, next_draws_length.
  - by rewrite spread_length, next_draws_length.
  - apply spread_within; [done|]. by apply next_draws_unit.
  - apply spread_within; [done|]. by apply next_draws_after.
Qed.

Lemma sample_world_ok : rng_ok sample_world.
Proof.
  intros i; simpl. destruct (Nat.even i); split; unfold Qle, Qlt; simpl; lia.
Qed.

(** *** With the range of float64 *)

Lemma in_float_range_bounds (q : Q) :
  in_float_range q <-> (- max_float <= q /\ q <= max_float)%Q.
Proof. unfold in_float_range. apply Qabs_Qle_condition. Qed.

Lemma round_overflow_in_range (q : Q) : in_float_range q -> round_overflow q = Fin q.
Proof.
  unfold in_float_range, round_overflow. intros H.
  apply Qle_bool_iff in H. by rewrite H.
Qed.

Lemma f64_le_Fin (p q : Q) : f64_le (Fin p) (Fin q) <-> (p <= q)%Q.
Proof. unfold f64_le; simpl. apply Qle_bool_iff. Qed.

(** Within the range, one entry of [draws * (hi - lo) + lo] is the
    exact number: nothing overflows on the way. *)
Lemma f64_spread_entry (lo hi r : Q) :
  in_float_range lo -> in_float_range hi -> in_float_range (hi - lo) ->
  (0 <= r)%Q -> (r < 1)%Q ->
  f64_add (f64_mul (Fin r) (f64_sub (Fin hi) (Fin lo))) (Fin lo)
  = Fin (r * (hi - lo) + lo)%Q.
Proof.
  intros Hlo Hhi Hd H0 H1.
  unfold f64_sub, f64_opp, f64_add at 2.
  change (hi + - lo)%Q with (hi - lo)%Q.
  rewrite (round_overflow_in_range _ Hd). unfold f64_mul.
  apply in_float_range_bounds in Hlo, Hhi, Hd.
  rewrite round_overflow_in_range.
  2:{ apply in_float_range_bounds.
      destruct (Qlt_le_dec (hi - lo) 0); split; nra. }
  unfold f64_add. rewrite round_overflow_in_range; [done|].
  apply in_float_range_bounds.
  destruct (Qlt_le_dec (hi - lo) 0); split; nra.
Qed.

Lemma f64_spread (lo hi : Q) (draws : list Q) :
  in_float_range lo -> in_float_range hi -> in_float_range (hi - lo) ->
  Forall (fun r => 0 <= r /\ r < 1)%Q draws ->
  map (fun x => f64_add x (Fin lo))
      (map (fun r => f64_mul (Fin r) (f64_sub (Fin hi) (Fin lo))) draws)
  = map Fin (spread lo hi draws).
Proof.
  intros Hlo Hhi Hd Hdraws. unfold spread. rewrite !map_map.
  induction Hdraws as [|r rs [H0 H1] _ IH]; cbn [map]; [done|].
  by rewrite IH, f64_spread_entry.
Qed.

Lemma generate_ra_dec_float64_run (n : nat) (ra_min ra_max dec_min dec_max : Q)
    (w : world) :
  rng_ok w ->
  in_float_range ra_min -> in_float_range ra_max -> in_float_range (ra_max - ra_min) ->
  in_float_range dec_min -> in_float_range dec_max -> in_float_range (dec_max - dec_min) ->
  generate_ra_dec n (Fin ra_min) (Fin ra_max) (Fin dec_min) (Fin dec_max) w =
  (inr (map Fin (spread ra_min ra_max (next_draws w n)),
        map Fin (spread dec_min dec_max (next_draws (after_draws w n) n))),
   after_draws (after_draws w n) n).
Proof.
  intros Hw Ha Hb Hab Hc Hd Hcd.
  unfold generate_ra_dec, bind, lift, np_random_random, ret.
  cbn [nl_sub nl_scale nl_add float64_NumberLike
       Irsa_ROW_LIMIT network_log rng_draws rng_pos].
  change (map (rng_draws w) (seq (rng_pos w) n)) with (next_draws w n).
  change (map (rng_draws w) (seq (rng_pos w + n) n))
    with (next_draws (after_draws w n) n).
  rewrite !f64_spread; auto using next_draws_unit, next_draws_after.
Qed.

Lemma generate_ra_dec_float64_length (N : nat) (ra_min ra_max dec_min dec_max : float64)
    (w : world) :
  exists ra_list dec_list : list float64,
    (generate_ra_dec N ra_min ra_max dec_min dec_max w).1 = inr (ra_list, dec_list) /\
    length ra_list = N /\ length dec_list = N.
Proof.
  unfold generate_ra_dec, bind, lift, np_random_random, ret; simpl.
  eexists _, _. split; [reflexivity|].
  by rewrite !length_map, !length_seq.
Qed.

Lemma Forall_Fin_within (lo hi : Q) (l : list Q) :
  Forall (fun x => lo <= x /\ x <= hi)%Q l ->
  Forall (fun x => f64_le (Fin lo) x /\ f64_le x (Fin hi)) (map Fin l).
Proof.
  induction 1 as [|x l [H1 H2] _ IH]; simpl; constructor; [|exact IH].
  by rewrite !f64_le_Fin.
Qed.

(** C9, as stated, fails on float64: for the ordered bounds -1e308 and
    1e308 the difference [ra_max - ra_min] overflows, and the value
    returned for a draw of 1/4 is the positive infinity, which is not
    within [ra_min, ra_max]. *)
Lemma generate_ra_dec_overflow_leaves_bounds :
  rng_ok sample_world /\
  f64_le (Fin (-1e308)) (Fin 1e308) /\ f64_le (Fin 0) (Fin 1) /\
  (generate_ra_dec 1 (Fin (-1e308)) (Fin 1e308) (Fin 0) (Fin 1) sample_world).1
    = inr ([PInf], [Fin (3 # 4)]) /\
  ~ (exists ra_list dec_list : list float64,
       (generate_ra_dec 1 (Fin (-1e308)) (Fin 1e308) (Fin 0) (Fin 1) sample_world).1
         = inr (ra_list, dec_list) /\
       length ra_list = 1 /\ length dec_list = 1 /\
       Forall (fun x => f64_le (Fin (-1e308)) x /\ f64_le x (Fin 1e308)) ra_list /\
       Forall (fun x => f64_le (Fin 0) x /\ f64_le x (Fin 1)) dec_list).
Proof.
  assert (Hrun : (generate_ra_dec 1 (Fin (-1e308)) (Fin 1e308) (Fin 0) (Fin 1)
                    sample_world).1 = inr ([PInf], [Fin (3 # 4)])).
  { vm_compute. reflexivity. }
  split; [exact sample_world_ok|]. split; [by vm_compute|]. split; [by vm_compute|].
  split; [exact Hrun|].
  intros (ra_list & dec_list & Heq & _ & _ & Hra & _).
  rewrite Hrun in Heq. injection Heq as <- <-.
  apply Forall_cons in Hra as [[_ Hle] _]. discriminate Hle.
Qed.

(** C9, amended: with count 0, [generate_ra_dec] returns two empty
    sequences; with count [N] it returns two sequences of exactly [N]
    values; and when the bounds are float64 numbers with
    [ra_min <= ra_max], [dec_min <= dec_max] whose differences
    [ra_max - ra_min] and [dec_max - dec_min] stay within the range of
    float64, every value of the first sequence lies within
    [ra_min, ra_max] and every value of the second within
    [dec_min, dec_max]. *)
Theorem generate_ra_dec_float64_within_bounds (w : world) :
  (forall ra_min ra_max dec_min dec_max : float64,
     (generate_ra_dec 0 ra_min ra_max dec_min dec_max w).1 = inr ([], [])) /\
  (forall (N : nat) (ra_min ra_max dec_min dec_max : float64),
     exists ra_list dec_list : list float64,
       (generate_ra_dec N ra_min ra_max dec_min dec_max w).1 = inr (ra_list, dec_list) /\
       length ra_list = N /\ length dec_list = N) /\
  (forall (N : nat) (ra_min ra_max dec_min dec_max : Q),
     rng_ok w ->
     in_float_range ra_min -> in_float_range ra_max ->
     in_float_range dec_min -> in_float_range dec_max ->
     (ra_min <= ra_max)%Q -> (dec_min <= dec_max)%Q ->
     (ra_max - ra_min <= max_float)%Q -> (dec_max - dec_min <= max_float)%Q ->
     exists ra_list dec_list : list float64,
       (generate_ra_dec N (Fin ra_min) (Fin ra_max) (Fin dec_min) (Fin dec_max) w).1
         = inr (ra_list, dec_list) /\
       length ra_list = N /\ length dec_list = N /\
       Forall (fun x => f64_le (Fin ra_min) x /\ f64_le x (Fin ra_max)) ra_list /\
       Forall (fun x => f64_le (Fin dec_min) x /\ f64_le x (Fin dec_max)) dec_list).
Proof.
  split_and!.
  - reflexivity.
  - intros. apply generate_ra_dec_float64_length.
  - intros N a b c d Hw Ha Hb Hc Hd Hab Hcd Hdab Hdcd.
    assert (in_float_range (b - a)) as Hrab.
    { apply in_float_range_bounds. apply in_float_range_bounds in Ha. split; lra. }
    assert (in_float_range (d - c)) as Hrcd.
    { apply in_float_range_bounds. apply in_float_range_bounds in Hc. split; lra. }
    rewrite generate_ra_dec_float64_run by done. simpl.
    eexists _, _. split; [reflexivity|]. split_and!.
    + by rewrite length_map, spread_length, next_draws_length.
    + by rewrite length_map, spread_length, next_draws_length.
    + apply Forall_Fin_within, spread_within; [done|]. by apply next_draws_unit.
    + apply Forall_Fin_within, spread_within; [done|]. by apply next_draws_after.
Qed.

Lemma generate_ra_dec_float64_within_bounds_witness :
  exists ra_list dec_list : list float64,
    (generate_ra_dec 3 (Fin 10) (Fin 11) (Fin (-1)) (Fin 1) sample_world).1
      = inr (ra_list, dec_list) /\
    length ra_list = 3 /\ length dec_list = 3 /\
    Forall (fun x => f64_le (Fin 10) x /\ f64_le x (Fin 11)) ra_list /\
    Forall (fun x => f64_le (Fin (-1)) x /\ f64_le x (Fin 1)) dec_list.
Proof.
  apply (proj2 (proj2 (generate_ra_dec_float64_within_bounds sample_world)) 3 10%Q 11%Q (-1)%Q 1%Q).
  - exact sample_world_ok.
  - by vm_compute.
  - by vm_compute.
  - by vm_compute.
  - by vm_compute.
  - discriminate.
  - discriminate.
  - by vm_compute.
  - by vm_compute.
Defined.

(** ** The population-model query *)

Lemma besancon_magnitudes_rows (model : list model_row) :
  besancon_magnitudes model =
  (map (fun r => (row_magnitudes r).1.1.1) model,
   map (fun r => (row_magnitudes r).1.1.2) model,
   map (fun r => (row_magnitudes r).1.2) model,
   map (fun r => (row_magnitudes r).2) model).
Proof.
  unfold besancon_magnitudes, row_magnitudes; simpl.
  by rewrite !zip_with_map_map.
Qed.

Lemma k_mags_length (model : list model_row) :
  length (zip_with Qminus (map mV model) (map mV_K model)) = length model.
Proof. by rewrite zip_with_map_map, length_map. Qed.

Section ModelQuery.

Variable S : services.

(** The [if]/[elif] on [coords] changes nothing in the world, and it
    leaves [coord1] and [coord2] both bound or both unbound. *)
Lemma besancon_coords_cases (ra dec : Quantity) (coords : string) (w : world) :
  (exists e, besancon_coords S ra dec coords w = (inl e, w) /\ coords = "ra_dec") \/
  (exists glon glat, besancon_coords S ra dec coords w = (inr (Some glon, Some glat), w) /\
     (coords = "ra_dec" \/ coords = "galactic")) \/
  (besancon_coords S ra dec coords w = (inr (None, None), w) /\
     coords <> "ra_dec" /\ coords <> "galactic").
Proof.
  unfold besancon_coords.
  destruct (String.eqb_spec coords "ra_dec") as [->|Hne1].
  - unfold bind, lift. destruct (icrs_to_galactic S _ _) as [e|[l b]]; simpl.
    + left. eauto.
    + right; left. eauto 6.
  - destruct (String.eqb_spec coords "galactic") as [->|Hne2].
    + right; left. eexists _, _. split; [reflexivity|]. by right.
    + right; right. done.
Qed.

Lemma besancon_coords_galactic (ra dec : Quantity) (w : world) :
  besancon_coords S ra dec "galactic" w = (inr (Some (value ra), Some (value dec)), w).
Proof. reflexivity. Qed.

Lemma besancon_coords_ra_dec (ra dec : Quantity) (w : world) (lb : Q * Q) :
  icrs_to_galactic S (value ra) (value dec) = inr lb ->
  besancon_coords S ra dec "ra_dec" w = (inr (Some lb.1, Some lb.2), w).
Proof. intros H. unfold besancon_coords, bind, lift; simpl. by rewrite H. Qed.

(** A call whose coordinates resolve: one request, then the catalog. *)
Lemma besancon_run (ra dec box_width : Q) (coords email : string) (kmag_limits : Q * Q)
    (w : world) (glon glat : Q) :
  besancon_coords S (Qty ra deg) (Qty dec deg) coords w = (inr (Some glon, Some glat), w) ->
  besancon S ra dec box_width coords email kmag_limits w =
  let payload := model_request glon glat box_width email kmag_limits in
  let w1 := send (BesanconRequest payload) w in
  match besancon_model S payload with
  | inl e => (inl e, w1)
  | inr model =>
      (inr (model_catalog ra dec box_width model w1),
       after_draws (after_draws w1 (length model)) (length model))
  end.
Proof.
  intros Hcoords. unfold besancon, bind. rewrite Hcoords.
  unfold lift, local, ret, Besancon_query, to, qmul, convert; simpl.
  fold (box_area box_width). fold (model_request glon glat box_width email kmag_limits).
  destruct (besancon_model S _) as [e|model]; [done|].
  unfold model_catalog; simpl. by rewrite !k_mags_length.
Qed.

(** When the coordinates resolve and the model service answers, the call
    returns a catalog. *)
Lemma besancon_succeeds (ra dec box_width : Q) (coords email : string)
    (kmag_limits : Q * Q) (w : world) (glon glat : Q) (model : list model_row) :
  besancon_coords S (Qty ra deg) (Qty dec deg) coords w = (inr (Some glon, Some glat), w) ->
  besancon_model S (model_request glon glat box_width email kmag_limits) = inr model ->
  exists cat : PointSourceCatalog,
    (besancon S ra dec box_width coords email kmag_limits w).1 = inr cat /\
    length (cat_ra cat) = length model.
Proof.
  intros Hc Hmodel. rewrite (besancon_run _ _ _ _ _ _ _ _ _ Hc). cbv zeta.
  rewrite Hmodel. eexists; split; [reflexivity|].
  unfold model_catalog. rewrite besancon_magnitudes_rows. simpl.
  by rewrite spread_length, next_draws_length, length_map.
Qed.

(** A call with an unrecognized [coords]: [coord1] is unbound when the
    arguments of the query are evaluated, and the world is untouched. *)
Lemma besancon_unbound (ra dec box_width : Q) (coords email : string)
    (kmag_limits : Q * Q) (w : world) :
  coords <> "ra_dec" -> coords <> "galactic" ->
  besancon S ra dec box_width coords email kmag_limits w
  = (inl (UnboundLocalError "coord1"), w).
Proof.
  intros Hne1 Hne2. unfold besancon, bind, besancon_coords.
  apply String.eqb_neq in Hne1, Hne2. by rewrite Hne1, Hne2.
Qed.

(** A call whose frame transform fails: its exception propagates. *)
Lemma besancon_transform_error (ra dec box_width : Q) (coords email : string)
    (kmag_limits : Q * Q) (w : world) (e : exn) :
  besancon_coords S (Qty ra deg) (Qty dec deg) coords w = (inl e, w) ->
  besancon S ra dec box_width coords email kmag_limits w = (inl e, w).
Proof. intros H. unfold besancon, bind. by rewrite H. Qed.

(** Every call that returns a catalog went through the model service. *)
Lemma besancon_returns (ra dec box_width : Q) (coords email : string)
    (kmag_limits : Q * Q) (w w' : world) (cat : PointSourceCatalog) :
  besancon S ra dec box_width coords email kmag_limits w = (inr cat, w') ->
  exists (glon glat : Q) (model : list model_row),
    let payload := model_request glon glat box_width email kmag_limits in
    let w1 := send (BesanconRequest payload) w in
    besancon_coords S (Qty ra deg) (Qty dec deg) coords w = (inr (Some glon, Some glat), w) /\
    besancon_model S payload = inr model /\
    cat = model_catalog ra dec box_width model w1 /\
    w' = after_draws (after_draws w1 (length model)) (length model).
Proof.
  intros Hrun.
  destruct (besancon_coords_cases (Qty ra deg) (Qty dec deg) coords w)
    as [(e & He & _)|[(glon & glat & Hc & _)|(Hc & Hne1 & Hne2)]].
  - rewrite (besancon_transform_error _ _ _ _ _ _ _ _ He) in Hrun. discriminate.
  - rewrite (besancon_run _ _ _ _ _ _ _ _ _ Hc) in Hrun. simpl in Hrun.
    destruct (besancon_model S _) as [e|model] eqn:Hmodel; [discriminate|].
    exists glon, glat, model. simpl. by simplify_eq.
  - rewrite besancon_unbound in Hrun by done. discriminate.
Qed.

End ModelQuery.

Lemma box_area_square_degrees (box_width : Q) :
  (box_area box_width == (box_width / 3600) * (box_width / 3600))%Q.
Proof. unfold box_area, scale; simpl. field. Qed.

Lemma half_width_deg_degrees (box_width : Q) :
  (half_width_deg box_width == box_width / 3600 / 2)%Q.
Proof. unfold half_width_deg, scale; simpl. field. Qed.

Lemma model_catalog_columns (ra dec box_width : Q) (model : list model_row) (w : world) :
  let mags := cat_magnitudes (model_catalog ra dec box_width model w) in
  mags !! ("Besancon", "k") = Some (map (fun r => mV r - mV_K r)%Q model) /\
  mags !! ("Besancon", "j") = Some (map (fun r => mV r - mV_K r + mJ_K r)%Q model) /\
  mags !! ("Besancon", "h") = Some (map (fun r => mV r - mV_K r + mJ_K r - mJ_H r)%Q model) /\
  mags !! ("Besancon", "l") = Some (map (fun r => mV r - mV_K r + mJ_K r - mJ_L r)%Q model).
Proof.
  unfold model_catalog. rewrite besancon_magnitudes_rows. simpl. split_and!.
  - rewrite lookup_insert_ne by done. by rewrite lookup_insert_eq.
  - do 3 (rewrite lookup_insert_ne by done). by rewrite lookup_insert_eq.
  - do 2 (rewrite lookup_insert_ne by done). by rewrite lookup_insert_eq.
  - by rewrite lookup_insert_eq.
Qed.

(** The catalogs of the model path satisfy the catalog invariant. *)
Lemma model_catalog_aligned (ra dec box_width : Q) (model : list model_row) (w : world) :
  catalog_aligned (model_catalog ra dec box_width model w).
Proof.
  unfold catalog_aligned, model_catalog. rewrite besancon_magnitudes_rows. simpl.
  rewrite !spread_length, !next_draws_length, !length_map. split; [done|].
  repeat (apply map_Forall_insert_2; [by rewrite length_map|]).
  apply map_Forall_empty.
Qed.

Lemma sample_besancon_run :
  besancon (sample_services sample_table) 100 20 3600 "galactic" "observer@example.org"
           (10, 29)%Q sample_world
  = (inr sample_catalog, after_draws (after_draws sample_sent 2) 2).
Proof. by rewrite (besancon_run _ _ _ _ _ _ _ _ _ _ (besancon_coords_galactic _ _ _ _)). Qed.

(** C3: in every catalog [besancon] returns, the four magnitude columns
    hold, for each row of the model's answer, K = V - (V-K),
    J = K + (J-K), H = J - (J-H) and L = J - (J-L); for V = 15.0,
    V-K = 2.0, J-K = 1.0, J-H = 0.5, J-L = 1.5 these are K = 13.0,
    J = 14.0, H = 13.5 and L = 12.5. *)
Theorem besancon_derives_magnitudes (S : services) (ra dec box_width : Q)
    (coords email : string) (kmag_limits : Q * Q) (w w' : world)
    (cat : PointSourceCatalog) :
  besancon S ra dec box_width coords email kmag_limits w = (inr cat, w') ->
  (exists (payload : besancon_payload) (model : list model_row),
     network_log w' = network_log w ++ [BesanconRequest payload] /\
     besancon_model S payload = inr model /\
     cat_magnitudes cat !! ("Besancon", "k")
       = Some (map (fun r => mV r - mV_K r)%Q model) /\
     cat_magnitudes cat !! ("Besancon", "j")
       = Some (map (fun r => (mV r - mV_K r) + mJ_K r)%Q model) /\
     cat_magnitudes cat !! ("Besancon", "h")
       = Some (map (fun r => ((mV r - mV_K r) + mJ_K r) - mJ_H r)%Q model) /\
     cat_magnitudes cat !! ("Besancon", "l")
       = Some (map (fun r => ((mV r - mV_K r) + mJ_K r) - mJ_L r)%Q model)) /\
  (let '(k_mags, j_mags, h_mags, l_mags) :=
     besancon_magnitudes [ModelRow 15.0 2.0 1.0 0.5 1.5] in
   Forall2 Qeq k_mags [13.0%Q] /\ Forall2 Qeq j_mags [14.0%Q] /\
   Forall2 Qeq h_mags [13.5%Q] /\ Forall2 Qeq l_mags [12.5%Q]).
Proof.
  intros Hrun. split; [|simpl; split_and!; repeat constructor].
  apply besancon_returns in Hrun as (glon & glat & model & _ & Hmodel & -> & ->).
  eexists _, model. split; [reflexivity|]. split; [exact Hmodel|].
  apply model_catalog_columns.
Qed.

Lemma besancon_derives_magnitudes_witness :
  (exists (payload : besancon_payload) (model : list model_row),
     network_log (after_draws (after_draws sample_sent 2) 2)
       = network_log sample_world ++ [BesanconRequest payload] /\
     besancon_model (sample_services sample_table) payload = inr model /\
     cat_magnitudes sample_catalog !! ("Besancon", "k")
       = Some (map (fun r => mV r - mV_K r)%Q model) /\
     cat_magnitudes sample_catalog !! ("Besancon", "j")
       = Some (map (fun r => (mV r - mV_K r) + mJ_K r)%Q model) /\
     cat_magnitudes sample_catalog !! ("Besancon", "h")
       = Some (map (fun r => ((mV r - mV_K r) + mJ_K r) - mJ_H r)%Q model) /\
     cat_magnitudes sample_catalog !! ("Besancon", "l")
       = Some (map (fun r => ((mV r - mV_K r) + mJ_K r) - mJ_L r)%Q model)) /\
  (let '(k_mags, j_mags, h_mags, l_mags) :=
     besancon_magnitudes [ModelRow 15.0 2.0 1.0 0.5 1.5] in
   Forall2 Qeq k_mags [13.0%Q] /\ Forall2 Qeq j_mags [14.0%Q] /\
   Forall2 Qeq h_mags [13.5%Q] /\ Forall2 Qeq l_mags [12.5%Q]).
Proof.
  exact (besancon_derives_magnitudes _ _ _ _ _ _ _ _ _ _ sample_besancon_run).
Defined.



(** C5: a call of [besancon] with a [coords] string other than 'ra_dec'
    and 'galactic' should raise an invalid-argument error.  Evaluated at
    [coords = 'equatorial']: the call raises the unbound-local error of
    [coord1], which is not an invalid-argument error. *)
Theorem besancon_equatorial_unbound_local (S : services) (ra dec box_width : Q)
    (email : string) (kmag_limits : Q * Q) (w : world) :
  (besancon S ra dec box_width "equatorial" email kmag_limits w).1
    = inl (UnboundLocalError "coord1") /\
  is_invalid_argument_error (UnboundLocalError "coord1") = false.
Proof. by rewrite besancon_unbound. Qed.

(** C8: whenever the coordinates resolve, [besancon] sends one request to
    the model service, and its area is the square of the box width taken
    in degrees; for a box width of 3600 arcsec the area is 1. *)
Theorem besancon_area_in_square_degrees (S : services) (ra dec box_width : Q)
    (coords email : string) (kmag_limits : Q * Q) (w : world) :
  coords = "galactic" \/
  (coords = "ra_dec" /\ exists lb : Q * Q, icrs_to_galactic S ra dec = inr lb) ->
  exists payload : besancon_payload,
    network_log (besancon S ra dec box_width coords email kmag_limits w).2
      = network_log w ++ [BesanconRequest payload] /\
    (bq_area payload == (box_width / 3600) * (box_width / 3600))%Q /\
    ((box_width == 3600)%Q -> (bq_area payload == 1)%Q).
Proof.
  intros Hcoords.
  assert (exists glon glat,
            besancon_coords S (Qty ra deg) (Qty dec deg) coords w
            = (inr (Some glon, Some glat), w)) as (glon & glat & Hc).
  { destruct Hcoords as [->|[-> [lb Hlb]]].
    - eexists _, _. apply besancon_coords_galactic.
    - eexists _, _. by apply besancon_coords_ra_dec. }
  rewrite (besancon_run _ _ _ _ _ _ _ _ _ _ Hc). cbv zeta.
  exists (model_request glon glat box_width email kmag_limits).
  split.
  { by destruct (besancon_model S (model_request glon glat box_width email kmag_limits)). }
  simpl.
  split; [apply box_area_square_degrees|].
  intros Hw. rewrite box_area_square_degrees, Hw. reflexivity.
Qed.

Lemma besancon_area_in_square_degrees_witness :
  exists payload : besancon_payload,
    network_log (besancon (sample_services sample_table) 100 20 3600 "galactic"
                   "observer@example.org" (10, 29)%Q sample_world).2
      = network_log sample_world ++ [BesanconRequest payload] /\
    (bq_area payload == (3600 / 3600) * (3600 / 3600))%Q /\
    ((3600 == 3600)%Q -> (bq_area payload == 1)%Q).
Proof.
  apply (besancon_area_in_square_degrees (sample_services sample_table) 100 20 3600
           "galactic" "observer@example.org" (10, 29)%Q sample_world).
  left. reflexivity.
Defined.

(** C10: a call of [besancon] with an unrecognized [coords] fails before
    any request reaches the model service: it raises, and it leaves the
    world, the log of network requests included, as it found it. *)
Theorem besancon_unrecognized_sends_nothing (S : services) (ra dec box_width : Q)
    (coords email : string) (kmag_limits : Q * Q) (w : world) :
  coords <> "ra_dec" -> coords <> "galactic" ->
  let outcome := besancon S ra dec box_width coords email kmag_limits w in
  (exists e : exn, outcome.1 = inl e) /\
  network_log outcome.2 = network_log w /\
  outcome.2 = w.
Proof.
  intros Hne1 Hne2 outcome. unfold outcome.
  rewrite besancon_unbound by done. simpl. eauto.
Qed.

Lemma besancon_unrecognized_sends_nothing_witness :
  let outcome :=
    besancon (sample_services sample_table) 100 20 3600 "equatorial"
             "observer@example.org" (10, 29)%Q sample_world in
  (exists e : exn, outcome.1 = inl e) /\
  network_log outcome.2 = network_log sample_world /\
  outcome.2 = sample_world.
Proof.
  apply (besancon_unrecognized_sends_nothing (sample_services sample_table) 100 20 3600
           "equatorial" "observer@example.org" (10, 29)%Q sample_world);
    discriminate.
Defined.

(** * Further properties *)

(** ** The survey query, beyond the claims *)

(** X1: when the service answers, the RA and Dec arrays of the catalog
    are the stored RA and Dec of the rows of the query table with
    neither flag set, in table order; the two arrays have one length. *)
Theorem get_2MASS_positions_of_usable_rows (S : services) (ra dec box_width : Q)
    (w : world) (sources : table) :
  fp_psc_sources S (IrsaRegion (ra, dec) "fp_psc" "Box" (Qty box_width arcsec)) = inr sources ->
  exists cat : PointSourceCatalog,
    (get_2MASS_ptsrc_catalog S ra dec box_width w).1 = inr cat /\
    cat_ra cat = map (fun r => mv_data (row_ra r))
                     (List.filter position_ok (take_rows 1000000 sources)) /\
    cat_dec cat = map (fun r => mv_data (row_dec r))
                      (List.filter position_ok (take_rows 1000000 sources)) /\
    length (cat_ra cat) = length (cat_dec cat).
Proof.
  intros Hsrc. rewrite get_2MASS_ptsrc_catalog_run; simpl. rewrite Hsrc; simpl.
  eexists; split; [reflexivity|].
  unfold catalog_of_table, column_data, getitem; simpl.
  rewrite !map_map, !bool_index_map, !length_map. done.
Qed.

Lemma get_2MASS_positions_of_usable_rows_witness :
  exists cat : PointSourceCatalog,
    (get_2MASS_ptsrc_catalog (sample_services sample_table) 10 20 60 sample_world).1 = inr cat /\
    cat_ra cat = map (fun r => mv_data (row_ra r))
                     (List.filter position_ok (take_rows 1000000 sample_table)) /\
    cat_dec cat = map (fun r => mv_data (row_dec r))
                      (List.filter position_ok (take_rows 1000000 sample_table)) /\
    length (cat_ra cat) = length (cat_dec cat).
Proof.
  apply (get_2MASS_positions_of_usable_rows (sample_services sample_table) 10 20 60
           sample_world sample_table).
  reflexivity.
Defined.

(** X2: whatever the outcome, a call leaves [Irsa.ROW_LIMIT] at 1000000,
    has sent exactly one request (the box around [(ra, dec)] in the
    catalogue 'fp_psc', width in arcsec, row limit 1000000) and has
    drawn no random number; its result does not depend on the row limit
    that was set before the call; a failure of the catalogue service is
    not handled, the call raises the service's exception. *)
Theorem get_2MASS_world_effect (S : services) (ra dec box_width : Q) (w : world) :
  let after := (get_2MASS_ptsrc_catalog S ra dec box_width w).2 in
  Irsa_ROW_LIMIT after = 1000000%Z /\
  network_log after =
    network_log w ++
    [IrsaRequest (IrsaRegion (ra, dec) "fp_psc" "Box" (Qty box_width arcsec)) 1000000] /\
  rng_pos after = rng_pos w /\
  rng_draws after = rng_draws w /\
  (forall limit : Z,
     (get_2MASS_ptsrc_catalog S ra dec box_width
        (World limit (network_log w) (rng_draws w) (rng_pos w))).1
     = (get_2MASS_ptsrc_catalog S ra dec box_width w).1) /\
  (forall e : exn,
     fp_psc_sources S (IrsaRegion (ra, dec) "fp_psc" "Box" (Qty box_width arcsec)) = inl e ->
     (get_2MASS_ptsrc_catalog S ra dec box_width w).1 = inl e).
Proof.
  cbv zeta. rewrite get_2MASS_ptsrc_catalog_run; cbv zeta.
  split_and!.
  - by destruct (fp_psc_sources S _).
  - by destruct (fp_psc_sources S _).
  - by destruct (fp_psc_sources S _).
  - by destruct (fp_psc_sources S _).
  - intros limit. rewrite get_2MASS_ptsrc_catalog_run; cbv zeta.
    by destruct (fp_psc_sources S _).
  - intros e Hsrc. by rewrite Hsrc.
Qed.

Lemma catalog_of_table_keys (t : table) :
  dom (cat_magnitudes (catalog_of_table t))
  = ({[ ("2MASS", "j_m"); ("2MASS", "h_m"); ("2MASS", "k_m") ]} : gset (string * string)).
Proof.
  unfold catalog_of_table; simpl. rewrite !dom_insert_L, dom_empty_L. set_solver.
Qed.

(** X3: when the service answers, the catalog has exactly three
    magnitude columns, keyed ('2MASS', 'j_m'), ('2MASS', 'h_m') and
    ('2MASS', 'k_m'); each has one entry per row of the query table, the
    stored magnitude where the entry is not flagged and 1e20 where it
    is. *)
Theorem get_2MASS_magnitude_columns (S : services) (ra dec box_width : Q)
    (w : world) (sources : table) :
  fp_psc_sources S (IrsaRegion (ra, dec) "fp_psc" "Box" (Qty box_width arcsec)) = inr sources ->
  let query_table := take_rows 1000000 sources in
  exists cat : PointSourceCatalog,
    (get_2MASS_ptsrc_catalog S ra dec box_width w).1 = inr cat /\
    dom (cat_magnitudes cat)
      = ({[ ("2MASS", "j_m"); ("2MASS", "h_m"); ("2MASS", "k_m") ]} : gset (string * string)) /\
    forall key : psc_column, key ∈ magnitude_keys ->
      exists col : list Q,
        cat_magnitudes cat !! ("2MASS", column_name key) = Some col /\
        length col = length query_table /\
        forall (i : nat) (r : psc_row), query_table !! i = Some r ->
          col !! i = Some (if mv_mask (row_field key r) then 1e20%Q
                           else mv_data (row_field key r)).
Proof.
  intros Hsrc query_table.
  rewrite get_2MASS_ptsrc_catalog_run; simpl. rewrite Hsrc; simpl. fold query_table.
  eexists; split; [reflexivity|]. split; [apply catalog_of_table_keys|].
  intros key Hkey. eexists. split; [by apply catalog_of_table_column|].
  split; [by rewrite filled_length, getitem_length|].
  intros i r Hi. unfold filled, getitem.
  by rewrite map_map, map_fmap, list_lookup_fmap, Hi.
Qed.

Lemma get_2MASS_magnitude_columns_witness :
  let query_table := take_rows 1000000 sample_table in
  exists cat : PointSourceCatalog,
    (get_2MASS_ptsrc_catalog (sample_services sample_table) 10 20 60 sample_world).1 = inr cat /\
    dom (cat_magnitudes cat)
      = ({[ ("2MASS", "j_m"); ("2MASS", "h_m"); ("2MASS", "k_m") ]} : gset (string * string)) /\
    forall key : psc_column, key ∈ magnitude_keys ->
      exists col : list Q,
        cat_magnitudes cat !! ("2MASS", column_name key) = Some col /\
        length col = length query_table /\
        forall (i : nat) (r : psc_row), query_table !! i = Some r ->
          col !! i = Some (if mv_mask (row_field key r) then 1e20%Q
                           else mv_data (row_field key r)).
Proof.
  apply (get_2MASS_magnitude_columns (sample_services sample_table) 10 20 60
           sample_world sample_table).
  reflexivity.
Defined.

(** X4: when the service answers, the returned catalog satisfies the
    catalog invariant (Dec array and every magnitude column as long as
    the RA array) exactly when no row of the query table has a flagged
    RA or Dec. *)
Theorem get_2MASS_invariant_iff_no_flagged_position (S : services)
    (ra dec box_width : Q) (w : world) (sources : table) :
  fp_psc_sources S (IrsaRegion (ra, dec) "fp_psc" "Box" (Qty box_width arcsec)) = inr sources ->
  exists cat : PointSourceCatalog,
    (get_2MASS_ptsrc_catalog S ra dec box_width w).1 = inr cat /\
    (catalog_aligned cat <->
     forall r : psc_row, r ∈ take_rows 1000000 sources ->
       mv_mask (row_ra r) = false /\ mv_mask (row_dec r) = false).
Proof.
  intros Hsrc.
  destruct (get_2MASS_aligned_iff S ra dec box_width w sources Hsrc) as (cat & Hcat & Hiff).
  exists cat. split; [done|]. rewrite Hiff, Forall_forall.
  split; intros H r Hr; apply position_ok_spec; by apply H.
Qed.

Lemma get_2MASS_invariant_iff_no_flagged_position_witness :
  exists cat : PointSourceCatalog,
    (get_2MASS_ptsrc_catalog (sample_services sample_table) 10 20 60 sample_world).1 = inr cat /\
    (catalog_aligned cat <->
     forall r : psc_row, r ∈ take_rows 1000000 sample_table ->
       mv_mask (row_ra r) = false /\ mv_mask (row_dec r) = false).
Proof.
  apply (get_2MASS_invariant_iff_no_flagged_position (sample_services sample_table)
           10 20 60 sample_world sample_table).
  reflexivity.
Defined.

(** X5: a box of at most 1000000 sources comes back whole: the positions
    are those of all rows of the service's answer with neither flag set,
    and each magnitude column is the whole filled column of the
    answer. *)
Theorem get_2MASS_whole_answer_below_limit (S : services) (ra dec box_width : Q)
    (w : world) (sources : table) :
  fp_psc_sources S (IrsaRegion (ra, dec) "fp_psc" "Box" (Qty box_width arcsec)) = inr sources ->
  (Z.of_nat (length sources) <= 1000000)%Z ->
  exists cat : PointSourceCatalog,
    (get_2MASS_ptsrc_catalog S ra dec box_width w).1 = inr cat /\
    cat_ra cat = map (fun r => mv_data (row_ra r)) (List.filter position_ok sources) /\
    cat_dec cat = map (fun r => mv_data (row_dec r)) (List.filter position_ok sources) /\
    forall key : psc_column, key ∈ magnitude_keys ->
      cat_magnitudes cat !! ("2MASS", column_name key) = Some (filled (getitem sources key)).
Proof.
  intros Hsrc Hlen.
  rewrite (get_2MASS_complete_below_limit S ra dec box_width w sources Hsrc Hlen).
  eexists; split; [reflexivity|].
  unfold catalog_of_table at 1 2, column_data, getitem; simpl.
  rewrite !map_map, !bool_index_map. split_and!; try done.
  intros key Hkey. by apply catalog_of_table_column.
Qed.

Lemma get_2MASS_whole_answer_below_limit_witness :
  exists cat : PointSourceCatalog,
    (get_2MASS_ptsrc_catalog (sample_services sample_table) 10 20 60 sample_world).1 = inr cat /\
    cat_ra cat = map (fun r => mv_data (row_ra r)) (List.filter position_ok sample_table) /\
    cat_dec cat = map (fun r => mv_data (row_dec r)) (List.filter position_ok sample_table) /\
    forall key : psc_column, key ∈ magnitude_keys ->
      cat_magnitudes cat !! ("2MASS", column_name key)
      = Some (filled (getitem sample_table key)).
Proof.
  apply (get_2MASS_whole_answer_below_limit (sample_services sample_table) 10 20 60
           sample_world sample_table).
  - reflexivity.
  - simpl. lia.
Defined.

(** ** The row-validity filter, beyond the claims *)

Lemma filter_keeps_only_ok (t : table) :
  Forall (fun r => position_ok r = true) (List.filter position_ok t).
Proof.
  apply Forall_forall. intros r Hr.
  apply list_elem_of_In, filter_In in Hr. tauto.
Qed.

Lemma map_all_true {A : Type} (p : A -> bool) (l : list A) :
  Forall (fun x => p x = true) l -> map p l = replicate (length l) true.
Proof. induction 1 as [|x l Hx _ IH]; simpl; [done|]. by rewrite Hx, IH. Qed.

Lemma filter_sublist {A : Type} (p : A -> bool) (l : list A) :
  sublist (List.filter p l) l.
Proof.
  induction l as [|x l IH]; simpl; [constructor|].
  destruct (p x); by constructor.
Qed.

(** X7: filtering is idempotent: the mask computed for the rows that a
    first mask selected is true everywhere, and selecting with it
    returns those rows unchanged. *)
Theorem filter_bad_ra_dec_idempotent (t : table) :
  let kept := bool_index t (filter_bad_ra_dec t).1 in
  (filter_bad_ra_dec kept).1 = replicate (length kept) true /\
  bool_index kept (filter_bad_ra_dec kept).1 = kept.
Proof.
  cbv zeta. rewrite !position_mask_rows, !bool_index_rows.
  pose proof (filter_keeps_only_ok t) as Hok. split.
  - by apply map_all_true.
  - by apply filter_all.
Qed.

(** X8: the mask depends on nothing but the RA and Dec flags: two tables
    whose rows agree, one by one, on these two flags get the same mask,
    whatever numbers they store and whatever their magnitude flags. *)
Theorem filter_bad_ra_dec_reads_position_flags_only (t t' : table) :
  Forall2 (fun r r' => mv_mask (row_ra r) = mv_mask (row_ra r') /\
                       mv_mask (row_dec r) = mv_mask (row_dec r')) t t' ->
  (filter_bad_ra_dec t).1 = (filter_bad_ra_dec t').1.
Proof.
  rewrite !position_mask_rows.
  induction 1 as [|r r' t t' [Hra Hdec] _ IH]; simpl; [done|].
  unfold position_ok at 1 3. by rewrite Hra, Hdec, IH.
Qed.

Lemma filter_bad_ra_dec_reads_position_flags_only_witness :
  (filter_bad_ra_dec sample_table).1 = (filter_bad_ra_dec sample_table_reflagged).1.
Proof.
  apply (filter_bad_ra_dec_reads_position_flags_only sample_table sample_table_reflagged).
  repeat constructor.
Defined.

(** X9: selecting with the mask keeps rows in table order (the
    selection is a sublist of the table), drops exactly the rows with a
    flagged RA or Dec, and returns the whole table exactly when no row
    has one. *)
Theorem filter_bad_ra_dec_selection (t : table) :
  let kept := bool_index t (filter_bad_ra_dec t).1 in
  sublist kept t /\
  (forall r : psc_row,
     r ∈ kept <-> r ∈ t /\ mv_mask (row_ra r) = false /\ mv_mask (row_dec r) = false) /\
  (kept = t <->
   forall r : psc_row, r ∈ t -> mv_mask (row_ra r) = false /\ mv_mask (row_dec r) = false).
Proof.
  cbv zeta. rewrite position_mask_rows, bool_index_rows. split_and!.
  - apply filter_sublist.
  - intros r. rewrite !list_elem_of_In, filter_In, position_ok_spec. tauto.
  - split.
    + intros Heq r Hr. apply position_ok_spec.
      assert (Hall : Forall (fun x => position_ok x = true) t).
      { apply filter_length_all. by rewrite Heq. }
      rewrite Forall_forall in Hall. by apply Hall.
    + intros Hall. apply filter_all, Forall_forall. intros r Hr.
      by apply position_ok_spec, Hall.
Qed.

(** ** The random position generator, beyond the claims *)

Lemma spread_lookup (lo hi : Q) (draws : list Q) (i : nat) (r : Q) :
  draws !! i = Some r -> spread lo hi draws !! i = Some (r * (hi - lo) + lo)%Q.
Proof.
  intros Hi. unfold spread. by rewrite map_map, map_fmap, list_lookup_fmap, Hi.
Qed.

Lemma next_draws_lookup (w : world) (n i : nat) :
  i < n -> next_draws w n !! i = Some (rng_draws w (rng_pos w + i)).
Proof.
  intros Hi. unfold next_draws.
  by rewrite map_fmap, list_lookup_fmap, lookup_seq_lt.
Qed.

(** X10: a call with count [N] consumes exactly [2 N] draws of the random
    source and touches nothing else; entry [i] of the first sequence is
    [draw * (ra_max - ra_min) + ra_min] for draw number [i], entry [i]
    of the second is [draw * (dec_max - dec_min) + dec_min] for draw
    number [N + i]: the two sequences never share a draw. *)
Theorem generate_ra_dec_draws (N : nat) (ra_min ra_max dec_min dec_max : Q) (w : world) :
  exists (ra_list dec_list : list Q) (w' : world),
    generate_ra_dec N ra_min ra_max dec_min dec_max w = (inr (ra_list, dec_list), w') /\
    rng_pos w' = rng_pos w + 2 * N /\
    rng_draws w' = rng_draws w /\
    network_log w' = network_log w /\
    Irsa_ROW_LIMIT w' = Irsa_ROW_LIMIT w /\
    forall i : nat, i < N ->
      ra_list !! i
        = Some (rng_draws w (rng_pos w + i) * (ra_max - ra_min) + ra_min)%Q /\
      dec_list !! i
        = Some (rng_draws w (rng_pos w + N + i) * (dec_max - dec_min) + dec_min)%Q.
Proof.
  rewrite generate_ra_dec_float_run. eexists _, _, _. split; [reflexivity|].
  simpl. split_and!; try done; [lia|].
  intros i Hi. split; apply spread_lookup; by rewrite next_draws_lookup.
Qed.

Lemma spread_reversed (lo hi : Q) (draws : list Q) :
  (hi <= lo)%Q ->
  Forall (fun r => 0 <= r /\ r < 1)%Q draws ->
  Forall (fun x => hi <= x /\ x <= lo)%Q (spread lo hi draws).
Proof.
  intros Hle Hdraws. unfold spread. rewrite map_map.
  induction Hdraws as [|r rs [H0 H1] _ IH]; simpl; constructor; [|exact IH].
  split; nra.
Qed.

(** X12: the bounds are not checked: with reversed float64 bounds
    ([ra_max <= ra_min], [dec_max <= dec_min]) whose differences stay
    within the range of float64, the call raises nothing and swaps
    nothing, and every value lies between the two bounds, within
    [ra_max, ra_min] and [dec_max, dec_min]. *)
Theorem generate_ra_dec_reversed_bounds (N : nat) (ra_min ra_max dec_min dec_max : Q)
    (w : world) :
  rng_ok w ->
  in_float_range ra_min -> in_float_range ra_max ->
  in_float_range dec_min -> in_float_range dec_max ->
  (ra_max <= ra_min)%Q -> (dec_max <= dec_min)%Q ->
  (ra_min - ra_max <= max_float)%Q -> (dec_min - dec_max <= max_float)%Q ->
  exists ra_list dec_list : list float64,
    (generate_ra_dec N (Fin ra_min) (Fin ra_max) (Fin dec_min) (Fin dec_max) w).1
      = inr (ra_list, dec_list) /\
    length ra_list = N /\ length dec_list = N /\
    Forall (fun x => f64_le (Fin ra_max) x /\ f64_le x (Fin ra_min)) ra_list /\
    Forall (fun x => f64_le (Fin dec_max) x /\ f64_le x (Fin dec_min)) dec_list.
Proof.
  intros Hw Ha Hb Hc Hd Hab Hcd Hdab Hdcd.
  assert (in_float_range (ra_max - ra_min)) as Hrab.
  { apply in_float_range_bounds. apply in_float_range_bounds in Ha. split; lra. }
  assert (in_float_range (dec_max - dec_min)) as Hrcd.
  { apply in_float_range_bounds. apply in_float_range_bounds in Hc. split; lra. }
  rewrite generate_ra_dec_float64_run by done. simpl.
  eexists _, _. split; [reflexivity|]. split_and!.
  - by rewrite length_map, spread_length, next_draws_length.
  - by rewrite length_map, spread_length, next_draws_length.
  - apply Forall_Fin_within, spread_reversed; [done|]. by apply next_draws_unit.
  - apply Forall_Fin_within, spread_reversed; [done|]. by apply next_draws_after.
Qed.

Lemma generate_ra_dec_reversed_bounds_witness :
  exists ra_list dec_list : list float64,
    (generate_ra_dec 3 (Fin 11) (Fin 10) (Fin 1) (Fin (-1)) sample_world).1
      = inr (ra_list, dec_list) /\
    length ra_list = 3 /\ length dec_list = 3 /\
    Forall (fun x => f64_le (Fin 10) x /\ f64_le x (Fin 11)) ra_list /\
    Forall (fun x => f64_le (Fin (-1)) x /\ f64_le x (Fin 1)) dec_list.
Proof.
  apply (generate_ra_dec_reversed_bounds 3 11%Q 10%Q 1%Q (-1)%Q sample_world).
  - exact sample_world_ok.
  - by vm_compute.
  - by vm_compute.
  - by vm_compute.
  - by vm_compute.
  - discriminate.
  - discriminate.
  - by vm_compute.
  - by vm_compute.
Defined.

(** ** The population-model query, beyond the claims *)

Lemma model_catalog_keys (ra dec box_width : Q) (model : list model_row) (w : world) :
  dom (cat_magnitudes (model_catalog ra dec box_width model w))
  = ({[ ("Besancon", "j"); ("Besancon", "h"); ("Besancon", "k"); ("Besancon", "l") ]}
       : gset (string * string)).
Proof.
  unfold model_catalog. rewrite besancon_magnitudes_rows. simpl.
  rewrite !dom_insert_L, dom_empty_L. set_solver.
Qed.

Lemma model_catalog_size (ra dec box_width : Q) (model : list model_row) (w : world) :
  length (cat_ra (model_catalog ra dec box_width model w)) = length model.
Proof.
  unfold model_catalog. rewrite besancon_magnitudes_rows. simpl.
  by rewrite spread_length, next_draws_length, length_map.
Qed.

(** X14: every catalog [besancon] returns satisfies the catalog
    invariant: it holds one star per row of the model's answer, and its
    magnitude columns, exactly the four keyed ('Besancon', 'j'), 'h',
    'k' and 'l', are as long as its RA and Dec arrays.  An empty answer
    gives an empty catalog. *)
Theorem besancon_catalog_invariant (S : services) (ra dec box_width : Q)
    (coords email : string) (kmag_limits : Q * Q) (w w' : world)
    (cat : PointSourceCatalog) :
  besancon S ra dec box_width coords email kmag_limits w = (inr cat, w') ->
  catalog_aligned cat /\
  dom (cat_magnitudes cat)
    = ({[ ("Besancon", "j"); ("Besancon", "h"); ("Besancon", "k"); ("Besancon", "l") ]}
         : gset (string * string)) /\
  exists (payload : besancon_payload) (model : list model_row),
    besancon_model S payload = inr model /\
    length (cat_ra cat) = length model /\
    (model = [] -> cat_ra cat = [] /\ cat_dec cat = []).
Proof.
  intros Hrun.
  apply besancon_returns in Hrun as (glon & glat & model & _ & Hmodel & -> & _).
  split; [apply model_catalog_aligned|]. split; [apply model_catalog_keys|].
  eexists _, model. split; [exact Hmodel|]. split; [apply model_catalog_size|].
  by intros ->.
Qed.

Lemma besancon_catalog_invariant_witness :
  catalog_aligned sample_catalog /\
  dom (cat_magnitudes sample_catalog)
    = ({[ ("Besancon", "j"); ("Besancon", "h"); ("Besancon", "k"); ("Besancon", "l") ]}
         : gset (string * string)) /\
  exists (payload : besancon_payload) (model : list model_row),
    besancon_model (sample_services sample_table) payload = inr model /\
    length (cat_ra sample_catalog) = length model /\
    (model = [] -> cat_ra sample_catalog = [] /\ cat_dec sample_catalog = []).
Proof.
  exact (besancon_catalog_invariant _ _ _ _ _ _ _ _ _ _ sample_besancon_run).
Defined.

(** The request of a call in 'galactic' mode. *)
Lemma besancon_galactic_request (S : services) (ra dec box_width : Q)
    (email : string) (kmag_limits : Q * Q) (w : world) :
  network_log (besancon S ra dec box_width "galactic" email kmag_limits w).2
    = network_log w ++
      [BesanconRequest
         (BesanconPayload ra dec true (box_area box_width)
            [("J-H", (-99, 99)%Q); ("J-K", (-99, 99)%Q);
             ("J-L", (-99, 99)%Q); ("V-K", (-99, 99)%Q)]
            [("K", kmag_limits)] true email)].
Proof.
  rewrite (besancon_run S _ _ _ _ _ _ _ _ _ (besancon_coords_galactic S _ _ w)).
  cbv zeta. unfold model_request; simpl. by destruct (besancon_model S _).
Qed.

(** X15: in 'galactic' mode the request carries the given pair unchanged
    as galactic longitude and latitude, and the frame transform is not
    consulted; in 'ra_dec' mode it carries the pair the transform
    returns.  In both modes the request asks for the small-field model,
    the colour limits (-99, 99) on J-H, J-K, J-L and V-K, the limits on
    K handed in, a result file, and passes the email through. *)
Theorem besancon_request_sent (S : services) (ra dec box_width : Q)
    (email : string) (kmag_limits : Q * Q) (w : world) :
  network_log (besancon S ra dec box_width "galactic" email kmag_limits w).2
    = network_log w ++
      [BesanconRequest
         (BesanconPayload ra dec true (box_area box_width)
            [("J-H", (-99, 99)%Q); ("J-K", (-99, 99)%Q);
             ("J-L", (-99, 99)%Q); ("V-K", (-99, 99)%Q)]
            [("K", kmag_limits)] true email)] /\
  (forall transform : Q -> Q -> exn + (Q * Q),
     besancon (Services (fp_psc_sources S) (besancon_model S) transform)
              ra dec box_width "galactic" email kmag_limits w
     = besancon S ra dec box_width "galactic" email kmag_limits w) /\
  (forall glon glat : Q,
     icrs_to_galactic S ra dec = inr (glon, glat) ->
     network_log (besancon S ra dec box_width "ra_dec" email kmag_limits w).2
       = network_log w ++
         [BesanconRequest
            (BesanconPayload glon glat true (box_area box_width)
               [("J-H", (-99, 99)%Q); ("J-K", (-99, 99)%Q);
                ("J-L", (-99, 99)%Q); ("V-K", (-99, 99)%Q)]
               [("K", kmag_limits)] true email)]).
Proof.
  split_and!.
  - apply besancon_galactic_request.
  - intros transform.
    rewrite (besancon_run S _ _ _ _ _ _ _ _ _ (besancon_coords_galactic S _ _ w)).
    by rewrite (besancon_run _ _ _ _ _ _ _ _ _ _ (besancon_coords_galactic _ _ _ w)).
  - intros glon glat Ht.
    rewrite (besancon_run S _ _ _ _ _ _ _ _ _
               (besancon_coords_ra_dec S (Qty ra deg) (Qty dec deg) w _ Ht)).
    cbv zeta. unfold model_request; simpl. by destruct (besancon_model S _).
Qed.

(** X16: in 'ra_dec' mode a rejection by the frame transform is not
    handled: the call raises the transform's exception before anything
    is sent, and leaves the world as it found it. *)
Theorem besancon_transform_failure (S : services) (ra dec box_width : Q)
    (email : string) (kmag_limits : Q * Q) (w : world) (e : exn) :
  icrs_to_galactic S ra dec = inl e ->
  besancon S ra dec box_width "ra_dec" email kmag_limits w = (inl e, w).
Proof.
  intros Ht. apply besancon_transform_error.
  unfold besancon_coords, bind, lift; simpl. by rewrite Ht.
Qed.

Lemma besancon_transform_failure_witness :
  besancon failing_services 100 95 3600 "ra_dec" "observer@example.org" (10, 29)%Q
           sample_world
  = (inl (ValueError "latitude out of range"), sample_world).
Proof.
  apply (besancon_transform_failure failing_services 100 95 3600 "observer@example.org"
           (10, 29)%Q sample_world (ValueError "latitude out of range")).
  reflexivity.
Defined.



(** X18: a call that returns a catalog of [n] stars has sent exactly one
    request, has advanced the random source by exactly [2 n] draws, and
    has left [Irsa.ROW_LIMIT] alone. *)
Theorem besancon_world_effect (S : services) (ra dec box_width : Q)
    (coords email : string) (kmag_limits : Q * Q) (w w' : world)
    (cat : PointSourceCatalog) :
  besancon S ra dec box_width coords email kmag_limits w = (inr cat, w') ->
  (exists payload : besancon_payload,
     network_log w' = network_log w ++ [BesanconRequest payload]) /\
  rng_pos w' = rng_pos w + 2 * length (cat_ra cat) /\
  rng_draws w' = rng_draws w /\
  Irsa_ROW_LIMIT w' = Irsa_ROW_LIMIT w.
Proof.
  intros Hrun.
  apply besancon_returns in Hrun as (glon & glat & model & _ & _ & -> & ->).
  rewrite model_catalog_size. simpl. split_and!; eauto. lia.
Qed.

Lemma besancon_world_effect_witness :
  (exists payload : besancon_payload,
     network_log (after_draws (after_draws sample_sent 2) 2)
     = network_log sample_world ++ [BesanconRequest payload]) /\
  rng_pos (after_draws (after_draws sample_sent 2) 2)
    = rng_pos sample_world + 2 * length (cat_ra sample_catalog) /\
  rng_draws (after_draws (after_draws sample_sent 2) 2) = rng_draws sample_world /\
  Irsa_ROW_LIMIT (after_draws (after_draws sample_sent 2) 2) = Irsa_ROW_LIMIT sample_world.
Proof.
  exact (besancon_world_effect _ _ _ _ _ _ _ _ _ _ sample_besancon_run).
Defined.

(** The positions of a model catalog for a box width that is not
    negative. *)
Lemma model_catalog_in_box (ra dec box_width : Q) (model : list model_row) (w : world) :
  (0 <= box_width)%Q ->
  rng_ok w ->
  Forall (fun x => ra - box_width / 3600 / 2 <= x /\ x <= ra + box_width / 3600 / 2)%Q
         (cat_ra (model_catalog ra dec box_width model w)) /\
  Forall (fun x => dec - box_width / 3600 / 2 <= x /\ x <= dec + box_width / 3600 / 2)%Q
         (cat_dec (model_catalog ra dec box_width model w)).
Proof.
  intros Hwidth Hw.
  pose proof (half_width_deg_degrees box_width) as Hhw.
  assert (0 <= half_width_deg box_width)%Q as Hpos.
  { rewrite Hhw.
    setoid_replace (box_width / 3600 / 2)%Q with (box_width * (1 # 7200))%Q using relation Qeq by field.
    lra. }
  unfold model_catalog. rewrite besancon_magnitudes_rows. simpl. split.
  - eapply Forall_impl.
    + apply spread_within; [|apply next_draws_unit; exact Hw]. nra.
    + intros x Hx; simpl in Hx. rewrite <- Hhw. exact Hx.
  - eapply Forall_impl.
    + apply spread_within; [|apply next_draws_unit; exact Hw]. nra.
    + intros x Hx; simpl in Hx. rewrite <- Hhw. exact Hx.
Qed.




(** ** The scene presets *)

(** A preset call that returns a catalog: its request and its stars. *)
Lemma galactic_preset_returns (S : services) (glon glat box_width : Q) (email : string)
    (w w' : world) (cat : PointSourceCatalog) :
  besancon S glon glat box_width "galactic" email (10, 29)%Q w = (inr cat, w') ->
  network_log w'
    = network_log w ++
      [BesanconRequest
         (BesanconPayload glon glat true (box_area box_width)
            [("J-H", (-99, 99)%Q); ("J-K", (-99, 99)%Q);
             ("J-L", (-99, 99)%Q); ("V-K", (-99, 99)%Q)]
            [("K", (10, 29)%Q)] true email)] /\
  ((0 <= box_width)%Q -> rng_ok w ->
   Forall (fun x => glon - box_width / 3600 / 2 <= x /\ x <= glon + box_width / 3600 / 2)%Q
          (cat_ra cat) /\
   Forall (fun x => glat - box_width / 3600 / 2 <= x /\ x <= glat + box_width / 3600 / 2)%Q
          (cat_dec cat)).
Proof.
  intros Hrun.
  apply besancon_returns in Hrun as (l & b & model & Hc & _ & -> & ->).
  rewrite besancon_coords_galactic in Hc. injection Hc as <- <-. simpl.
  split; [reflexivity|]. intros Hwidth Hw. by apply model_catalog_in_box.
Qed.

(** X21: a catalog returned by [galactic_plane] comes from exactly one
    request, at galactic longitude 45 and latitude 0 with the K limits
    (10, 29), the box width and the email passed through; for a box
    width that is not negative its stars lie within 45 +- width/2 and
    0 +- width/2 (width in degrees). *)
Theorem galactic_plane_scene (S : services) (box_width : Q) (email : string)
    (w w' : world) (cat : PointSourceCatalog) :
  galactic_plane S box_width email w = (inr cat, w') ->
  network_log w'
    = network_log w ++
      [BesanconRequest
         (BesanconPayload 45 0 true (box_area box_width)
            [("J-H", (-99, 99)%Q); ("J-K", (-99, 99)%Q);
             ("J-L", (-99, 99)%Q); ("V-K", (-99, 99)%Q)]
            [("K", (10, 29)%Q)] true email)] /\
  ((0 <= box_width)%Q -> rng_ok w ->
   Forall (fun x => 45 - box_width / 3600 / 2 <= x /\ x <= 45 + box_width / 3600 / 2)%Q
          (cat_ra cat) /\
   Forall (fun x => 0 - box_width / 3600 / 2 <= x /\ x <= 0 + box_width / 3600 / 2)%Q
          (cat_dec cat)).
Proof. unfold galactic_plane. apply galactic_preset_returns. Qed.

Lemma sample_galactic_plane_run :
  galactic_plane (sample_services sample_table) 3600 "observer@example.org" sample_world
  = (inr sample_plane_catalog, after_draws (after_draws sample_plane_sent 2) 2).
Proof.
  unfold galactic_plane.
  by rewrite (besancon_run _ _ _ _ _ _ _ _ _ _ (besancon_coords_galactic _ _ _ _)).
Qed.

Lemma galactic_plane_scene_witness :
  network_log (after_draws (after_draws sample_plane_sent 2) 2)
    = network_log sample_world ++
      [BesanconRequest
         (BesanconPayload 45 0 true (box_area 3600)
            [("J-H", (-99, 99)%Q); ("J-K", (-99, 99)%Q);
             ("J-L", (-99, 99)%Q); ("V-K", (-99, 99)%Q)]
            [("K", (10, 29)%Q)] true "observer@example.org")] /\
  (Forall (fun x => 45 - 3600 / 3600 / 2 <= x /\ x <= 45 + 3600 / 3600 / 2)%Q
          (cat_ra sample_plane_catalog) /\
   Forall (fun x => 0 - 3600 / 3600 / 2 <= x /\ x <= 0 + 3600 / 3600 / 2)%Q
          (cat_dec sample_plane_catalog)).
Proof.
  destruct (galactic_plane_scene _ _ _ _ _ _ sample_galactic_plane_run) as [Hlog Hbox].
  split; [exact Hlog|]. apply Hbox; [discriminate|exact sample_world_ok].
Defined.

(** X22: a catalog returned by [out_of_plane] comes from exactly one
    request, at galactic longitude 45 and latitude 85 with the K limits
    (10, 29), the box width and the email passed through; for a box
    width that is not negative its stars lie within 45 +- width/2 and
    85 +- width/2 (width in degrees). *)
Theorem out_of_plane_scene (S : services) (box_width : Q) (email : string)
    (w w' : world) (cat : PointSourceCatalog) :
  out_of_plane S box_width email w = (inr cat, w') ->
  network_log w'
    = network_log w ++
      [BesanconRequest
         (BesanconPayload 45 85 true (box_area box_width)
            [("J-H", (-99, 99)%Q); ("J-K", (-99, 99)%Q);
             ("J-L", (-99, 99)%Q); ("V-K", (-99, 99)%Q)]
            [("K", (10, 29)%Q)] true email)] /\
  ((0 <= box_width)%Q -> rng_ok w ->
   Forall (fun x => 45 - box_width / 3600 / 2 <= x /\ x <= 45 + box_width / 3600 / 2)%Q
          (cat_ra cat) /\
   Forall (fun x => 85 - box_width / 3600 / 2 <= x /\ x <= 85 + box_width / 3600 / 2)%Q
          (cat_dec cat)).
Proof. unfold out_of_plane. apply galactic_preset_returns. Qed.

Lemma sample_out_of_plane_run :
  out_of_plane (sample_services sample_table) 3600 "observer@example.org" sample_world
  = (inr sample_pole_catalog, after_draws (after_draws sample_pole_sent 2) 2).
Proof.
  unfold out_of_plane.
  by rewrite (besancon_run _ _ _ _ _ _ _ _ _ _ (besancon_coords_galactic _ _ _ _)).
Qed.

Lemma out_of_plane_scene_witness :
  network_log (after_draws (after_draws sample_pole_sent 2) 2)
    = network_log sample_world ++
      [BesanconRequest
         (BesanconPayload 45 85 true (box_area 3600)
            [("J-H", (-99, 99)%Q); ("J-K", (-99, 99)%Q);
             ("J-L", (-99, 99)%Q); ("V-K", (-99, 99)%Q)]
            [("K", (10, 29)%Q)] true "observer@example.org")] /\
  (Forall (fun x => 45 - 3600 / 3600 / 2 <= x /\ x <= 45 + 3600 / 3600 / 2)%Q
          (cat_ra sample_pole_catalog) /\
   Forall (fun x => 85 - 3600 / 3600 / 2 <= x /\ x <= 85 + 3600 / 3600 / 2)%Q
          (cat_dec sample_pole_catalog)).
Proof.
  destruct (out_of_plane_scene _ _ _ _ _ _ sample_out_of_plane_run) as [Hlog Hbox].
  split; [exact Hlog|]. apply Hbox; [discriminate|exact sample_world_ok].
Defined.
